(** * SeirChain consensus core: Merkle commitment, VDF, Triad header,
      Proof-of-Fractal puzzle and committee signature aggregation.

    A shallow embedding of
      - [seir_chain/crypto/hashing.py]
      - [seir_chain/consensus/vdf.py]
      - [seir_chain/consensus/pof.py]
      - [seir_chain/data_structures/triad.py]
      - [seir_chain/data_structures/transaction.py]
      - [seir_chain/crypto/key_pair.py]
      - [seir_chain/crypto/bls_production.py]
    Python [bytes] are lists of [byte], Python [int]s are [Z], Python [str]s
    are lists of code points.  Objects that the code mutates (the Triad, the
    VDF instance) are threaded explicitly as state. *)

From Stdlib Require Import String Ascii DecimalString.
From Stdlib.Strings Require Import Byte.
From Stdlib Require Import ZArith NArith List Lia Bool Permutation Sorted.
From Equations Require Import Equations.
Import ListNotations.

Local Open Scope string_scope.
Local Open Scope list_scope.
Local Open Scope Z_scope.

(** ** Python values *)

Definition bytes := list byte.

(** A Python [str]: its sequence of Unicode code points. *)
Definition str := list N.

Definition byte_of_Z (z : Z) : byte :=
  match Byte.of_N (Z.to_N (z mod 256)) with
  | Some b => b
  | None => x00
  end.

Definition Z_of_byte (b : byte) : Z := Z.of_N (Byte.to_N b).

(** [bytes == bytes] *)
Fixpoint bytes_eqb (a b : bytes) : bool :=
  match a, b with
  | [], [] => true
  | x :: a', y :: b' => Byte.eqb x y && bytes_eqb a' b'
  | _, _ => false
  end.

(** [str == str] *)
Fixpoint str_eqb (a b : str) : bool :=
  match a, b with
  | [], [] => true
  | x :: a', y :: b' => N.eqb x y && str_eqb a' b'
  | _, _ => false
  end.

(** A string literal of the source, as a [str]. *)
Definition str_lit (s : string) : str :=
  map (fun c => N_of_ascii c) (list_ascii_of_string s).

(** [int.from_bytes(b, 'big')] *)
Definition int_from_bytes_big (b : bytes) : Z :=
  fold_left (fun acc x => acc * 256 + Z_of_byte x) b 0.

(** [bytes.hex()]: two lower-case hexadecimal digits per byte. *)
Definition hex_digit (n : Z) : N :=
  Z.to_N (if n <? 10 then 48 + n else 87 + n).

Definition hex (b : bytes) : str :=
  flat_map (fun x => [hex_digit (Z_of_byte x / 16); hex_digit (Z_of_byte x mod 16)]) b.

(** ** SHA-256 ([hashlib.sha256(...).digest()]), FIPS 180-4, on 32-bit words
    held in [Z] with the wrap-around written out. *)

Module SHA256.

Definition wrap32 (x : Z) : Z := Z.land x 0xffffffff.

Definition rotr (n x : Z) : Z :=
  Z.lor (Z.shiftr x n) (wrap32 (Z.shiftl x (32 - n))).

Definition shr (n x : Z) : Z := Z.shiftr x n.

Definition Ch (x y z : Z) : Z :=
  Z.lxor (Z.land x y) (Z.land (Z.lxor x 0xffffffff) z).

Definition Maj (x y z : Z) : Z :=
  Z.lxor (Z.lxor (Z.land x y) (Z.land x z)) (Z.land y z).

Definition Sigma0 (x : Z) : Z := Z.lxor (Z.lxor (rotr 2 x) (rotr 13 x)) (rotr 22 x).
Definition Sigma1 (x : Z) : Z := Z.lxor (Z.lxor (rotr 6 x) (rotr 11 x)) (rotr 25 x).
Definition sigma0 (x : Z) : Z := Z.lxor (Z.lxor (rotr 7 x) (rotr 18 x)) (shr 3 x).
Definition sigma1 (x : Z) : Z := Z.lxor (Z.lxor (rotr 17 x) (rotr 19 x)) (shr 10 x).

(** Trial division. *)
Definition is_prime (n : nat) : bool :=
  forallb (fun d => negb (n mod d =? 0)%nat) (seq 2 (n - 2)).

(** The first 64 primes, 2 to 311. *)
Definition primes : list Z :=
  Eval vm_compute in map Z.of_nat (filter is_prime (seq 2 310)).

(** Integer cube root, by bits from the top. *)
Definition cube_root (x : Z) : Z :=
  fold_left (fun r bit =>
               let c := r + Z.shiftl 1 (Z.of_nat bit) in
               if c * c * c <=? x then c else r)
            (rev (seq 0 40)) 0.

(** The round constants: the first 32 bits of the fractional parts of the
    cube roots of the first 64 primes. *)
Definition K : list Z :=
  Eval vm_compute in map (fun p => wrap32 (cube_root (p * 2 ^ 96))) primes.

Record regs : Type := Regs {
  ra : Z; rb : Z; rc : Z; rd : Z; re : Z; rf : Z; rg : Z; rh : Z
}.

(** The initial hash value: the first 32 bits of the fractional parts of
    the square roots of the first 8 primes. *)
Definition frac_sqrt (p : Z) : Z := wrap32 (Z.sqrt (p * 2 ^ 64)).

Definition H0 : regs :=
  Eval vm_compute in
    Regs (frac_sqrt 2) (frac_sqrt 3) (frac_sqrt 5) (frac_sqrt 7)
         (frac_sqrt 11) (frac_sqrt 13) (frac_sqrt 17) (frac_sqrt 19).

(** [x] on [width] bytes, big-endian. *)
Definition be_bytes (width : nat) (x : Z) : bytes :=
  map (fun i => byte_of_Z (Z.shiftr x (8 * Z.of_nat i))) (rev (seq 0 width)).

(** Padding: a 1 bit, zero bits up to 56 modulo 64 bytes, then the bit
    length on 8 bytes, big-endian. *)
Definition pad (msg : bytes) : bytes :=
  let len := Z.of_nat (length msg) in
  msg ++ [x80] ++ repeat x00 (Z.to_nat ((55 - len) mod 64)) ++ be_bytes 8 (8 * len).

Fixpoint words_of_bytes (bs : bytes) : list Z :=
  match bs with
  | b0 :: b1 :: b2 :: b3 :: rest =>
      int_from_bytes_big [b0; b1; b2; b3] :: words_of_bytes rest
  | _ => []
  end.

(** Message schedule; [recent] holds the words computed so far, newest first. *)
Fixpoint extend (n : nat) (recent : list Z) : list Z :=
  match n with
  | O => recent
  | S n' =>
      let w := wrap32 (sigma1 (nth 1 recent 0) + nth 6 recent 0
                       + sigma0 (nth 14 recent 0) + nth 15 recent 0) in
      extend n' (w :: recent)
  end.

Definition schedule (block : list Z) : list Z := rev (extend 48 (rev block)).

Definition round (s : regs) (kw : Z * Z) : regs :=
  let t1 := rh s + Sigma1 (re s) + Ch (re s) (rf s) (rg s) + fst kw + snd kw in
  let t2 := Sigma0 (ra s) + Maj (ra s) (rb s) (rc s) in
  Regs (wrap32 (t1 + t2)) (ra s) (rb s) (rc s)
       (wrap32 (rd s + t1)) (re s) (rf s) (rg s).

Definition compress (h : regs) (block : list Z) : regs :=
  let s := fold_left round (combine K (schedule block)) h in
  Regs (wrap32 (ra h + ra s)) (wrap32 (rb h + rb s))
       (wrap32 (rc h + rc s)) (wrap32 (rd h + rd s))
       (wrap32 (re h + re s)) (wrap32 (rf h + rf s))
       (wrap32 (rg h + rg s)) (wrap32 (rh h + rh s)).

Fixpoint blocks (n : nat) (ws : list Z) (h : regs) : regs :=
  match n with
  | O => h
  | S n' => blocks n' (skipn 16 ws) (compress h (firstn 16 ws))
  end.

Definition digest (msg : bytes) : bytes :=
  let ws := words_of_bytes (pad msg) in
  let h := blocks (length ws / 16) ws H0 in
  flat_map (be_bytes 4) [ra h; rb h; rc h; rd h; re h; rf h; rg h; rh h].

End SHA256.

(** A [bytes] literal of the source. *)
Definition bytes_lit (s : string) : bytes := list_byte_of_string s.

(** ** Exceptions

    The exception classes the modelled code raises or catches;
    [OtherError] stands for any other class a library may raise. *)

Inductive exn : Type :=
| ValueError (msg : string)
| BadSignatureError
| OtherError (name : string).

Inductive result (A : Type) : Type :=
| Ok (a : A)
| Raise (e : exn).

Arguments Ok {A} a.
Arguments Raise {A} e.

(** ** [seir_chain/crypto/hashing.py] *)

Definition sha256_hash (data : bytes) : bytes := SHA256.digest data.

Arguments sha256_hash : simpl never.

(** [range(0, n, 2)] *)
Definition range_step2 (n : nat) : list nat :=
  map (fun k => 2 * k)%nat (seq 0 (Nat.div2 (S n))).

(** The loop of [merkle_root] that builds [next_level]: for each even index
    [i], [left = items[i]], [right = items[i+1]] when [i+1] is in range and
    [left] otherwise. *)
Definition next_level (items : list bytes) : list bytes :=
  map (fun i =>
         let left := nth i items [] in
         let right := if (i + 1 <? length items)%nat
                      then nth (i + 1) items [] else left in
         sha256_hash (left ++ right))
      (range_step2 (length items)).

Opaque sha256_hash.

Equations? merkle_root (items : list bytes) : bytes by wf (length items) lt :=
  merkle_root [] := sha256_hash [];
  merkle_root [x] := sha256_hash x;
  merkle_root (x :: y :: rest) := merkle_root (next_level (x :: y :: rest)).
Proof.
  unfold next_level, range_step2. rewrite !length_map, length_seq. cbn [length].
  destruct (length rest) as [|n]; [cbn; lia|].
  change (Nat.div2 (S (S (S (S n))))) with (S (S (Nat.div2 n))).
  pose proof (Nat.div2_decr n n (Nat.le_succ_diag_r n)).
  lia.
Qed.

Transparent sha256_hash.

(** ** [str.encode('utf-8')]

    Surrogate code points, on which Python raises, do not occur in the
    output of [json.dumps], the only text encoded here. *)

Definition encode_utf8_char (c : N) : bytes :=
  let z := Z.of_N c in
  if z <? 0x80 then [byte_of_Z z]
  else if z <? 0x800 then
    [byte_of_Z (0xc0 + z / 64); byte_of_Z (0x80 + z mod 64)]
  else if z <? 0x10000 then
    [byte_of_Z (0xe0 + z / 4096); byte_of_Z (0x80 + (z / 64) mod 64);
     byte_of_Z (0x80 + z mod 64)]
  else
    [byte_of_Z (0xf0 + z / 262144); byte_of_Z (0x80 + (z / 4096) mod 64);
     byte_of_Z (0x80 + (z / 64) mod 64); byte_of_Z (0x80 + z mod 64)].

Definition encode_utf8 (s : str) : bytes := flat_map encode_utf8_char s.

(** ** [str(n)] for an [int]

    CPython refuses to turn an integer of more than
    [sys.int_info.default_max_str_digits] decimal digits into text:
    [str], an f-string and [json.dumps] all raise [ValueError] on it. *)

Definition int_max_str_digits : Z := 4300.

(** [10 ** 4300], the least integer with more digits than that. *)
Definition int_str_bound : Z := Eval vm_compute in 10 ^ int_max_str_digits.

Definition int_conversion_error : exn :=
  ValueError "Exceeds the limit (4300 digits) for integer string conversion; use sys.set_int_max_str_digits() to increase the limit".

(** Whether [n] has at most 4300 digits. *)
Definition int_renders (n : Z) : bool := Z.abs n <? int_str_bound.

(** The decimal digits of [n], with its sign. *)
Definition repr_int (n : Z) : string := NilZero.string_of_int (Z.to_int n).

Definition str_of_int (n : Z) : result str :=
  if int_renders n then Ok (str_lit (repr_int n)) else Raise int_conversion_error.

(** ** [json.dumps(d, sort_keys=True)] for the flat dictionaries of the
    source: integer, string and [None] values, default separators,
    [ensure_ascii=True].  An integer that [str] refuses makes it raise. *)

Module JSON.

Inductive value : Type :=
| Int (n : Z)
| Str (s : str)
| Null.

(** A dictionary in insertion order; its keys are literals of the source. *)
Definition dict := list (string * value).

Definition hex4 (c : N) : str :=
  let z := Z.of_N c in
  [hex_digit ((z / 4096) mod 16); hex_digit ((z / 256) mod 16);
   hex_digit ((z / 16) mod 16); hex_digit (z mod 16)].

Definition backslash : N := 92.

Definition escape_char (c : N) : str :=
  if (c =? 34)%N then [backslash; 34%N]
  else if (c =? 92)%N then [backslash; backslash]
  else if (c =? 10)%N then backslash :: str_lit "n"
  else if (c =? 13)%N then backslash :: str_lit "r"
  else if (c =? 9)%N then backslash :: str_lit "t"
  else if (c =? 12)%N then backslash :: str_lit "f"
  else if (c =? 8)%N then backslash :: str_lit "b"
  else if ((32 <=? c) && (c <=? 126))%N then [c]
  else if (c <? 0x10000)%N then backslash :: str_lit "u" ++ hex4 c
  else
    let v := (c - 0x10000)%N in
    let s1 := N.lor 0xd800 (N.land (N.shiftr v 10) 0x3ff) in
    let s2 := N.lor 0xdc00 (N.land v 0x3ff) in
    (backslash :: str_lit "u" ++ hex4 s1) ++ (backslash :: str_lit "u" ++ hex4 s2).

Definition encode_basestring_ascii (s : str) : str :=
  34%N :: flat_map escape_char s ++ [34%N].

Definition dump_value (v : value) : result str :=
  match v with
  | Int n => str_of_int n
  | Str s => Ok (encode_basestring_ascii s)
  | Null => Ok (str_lit "null")
  end.

Fixpoint insert_key (kv : string * value) (d : dict) : dict :=
  match d with
  | [] => [kv]
  | kv' :: d' =>
      if String.leb (fst kv) (fst kv') then kv :: d
      else kv' :: insert_key kv d'
  end.

Definition sort_keys (d : dict) : dict := fold_right insert_key [] d.

Definition dump_item (kv : string * value) : result str :=
  match dump_value (snd kv) with
  | Ok text => Ok (encode_basestring_ascii (str_lit (fst kv)) ++ str_lit ": " ++ text)
  | Raise e => Raise e
  end.

(** The items in order, up to the first that raises. *)
Fixpoint dump_items (d : dict) : result (list str) :=
  match d with
  | [] => Ok []
  | kv :: d' =>
      match dump_item kv with
      | Raise e => Raise e
      | Ok part =>
          match dump_items d' with
          | Raise e => Raise e
          | Ok parts => Ok (part :: parts)
          end
      end
  end.

Fixpoint join (sep : str) (parts : list str) : str :=
  match parts with
  | [] => []
  | [p] => p
  | p :: rest => p ++ sep ++ join sep rest
  end.

(** Whether every integer of a dictionary has at most 4300 digits. *)
Definition value_renders (v : value) : bool :=
  match v with
  | Int n => int_renders n
  | _ => true
  end.

Definition renders (d : dict) : bool :=
  forallb (fun kv => value_renders (snd kv)) d.

Definition dumps_sorted (d : dict) : result str :=
  match dump_items (sort_keys d) with
  | Ok parts => Ok (str_lit "{" ++ join (str_lit ", ") parts ++ str_lit "}")
  | Raise e => Raise e
  end.

End JSON.

(** ** [seir_chain/crypto/key_pair.py] and
       [seir_chain/data_structures/transaction.py] *)

(** Truth value of an [Optional[bytes]]: [None] and [b''] are false. *)
Definition truthy (b : option bytes) : bool :=
  match b with
  | Some (_ :: _) => true
  | _ => false
  end.

Module Transaction.

Record t : Type := Build {
  from_address : str;
  to_address : str;
  amount : Z;
  fee : Z;
  nonce : Z;
  timestamp : Z;                (* [int(time.time())] at construction *)
  signature : option bytes;
  public_key : option bytes
}.

(** [self.x.hex() if self.x else None] *)
Definition hex_or_none (b : option bytes) : JSON.value :=
  match b with
  | Some (x :: r) => JSON.Str (hex (x :: r))
  | _ => JSON.Null
  end.

Definition to_dict (tx : t) (with_signature : bool) : JSON.dict :=
  let data :=
    [ ("from_address", JSON.Str (from_address tx));
      ("to_address", JSON.Str (to_address tx));
      ("amount", JSON.Int (amount tx));
      ("fee", JSON.Int (fee tx));
      ("nonce", JSON.Int (nonce tx));
      ("timestamp", JSON.Int (timestamp tx)) ] in
  if with_signature then
    data ++ [ ("public_key", hex_or_none (public_key tx));
              ("signature", hex_or_none (signature tx)) ]
  else data.

Definition payload (tx : t) : result bytes :=
  match JSON.dumps_sorted (to_dict tx false) with
  | Ok payload_str => Ok (encode_utf8 payload_str)
  | Raise e => Raise e
  end.

Definition get_hash (tx : t) : result bytes :=
  match JSON.dumps_sorted (to_dict tx true) with
  | Ok tx_str => Ok (sha256_hash (encode_utf8 tx_str))
  | Raise e => Raise e
  end.

(** ['WAC' + hashlib.sha256(public_key).digest()[-20:].hex()] *)
Definition addr_from_pubkey (pk : bytes) : str :=
  let d := sha256_hash pk in
  str_lit "WAC" ++ hex (skipn (length d - 20) d).

Section Validity.

(** The [ecdsa] library is not part of the repository:
    [ecdsa_verify pk sig msg] stands for
    [VerifyingKey.from_string(pk, curve=SECP256k1).verify(sig, msg, hashfunc=sha256)],
    which returns a boolean or raises. *)
Variable ecdsa_verify : bytes -> bytes -> bytes -> result bool.

(** [KeyPair.verify]: [BadSignatureError] and [ValueError] are caught
    and give [False]; any other exception propagates. *)
Definition KeyPair_verify (pk sig msg : bytes) : result bool :=
  match ecdsa_verify pk sig msg with
  | Ok b => Ok b
  | Raise BadSignatureError => Ok false
  | Raise (ValueError _) => Ok false
  | Raise e => Raise e
  end.

(** [Transaction.is_valid].  The dummy [KeyPair()] the source creates is
    never used and is left out.  The payload is computed before
    [KeyPair.verify] is entered, so what it raises is not caught. *)
Definition is_valid (tx : t) : result bool :=
  if str_eqb (from_address tx) (str_lit "COINBASE") then Ok true
  else if negb (truthy (signature tx)) || negb (truthy (public_key tx))
  then Ok false
  else
    match signature tx, public_key tx with
    | Some sig, Some pk =>
        if negb (str_eqb (addr_from_pubkey pk) (from_address tx))
        then Ok false
        else
          match payload tx with
          | Ok message => KeyPair_verify pk sig message
          | Raise e => Raise e
          end
    | _, _ => Ok false
    end.

End Validity.

End Transaction.

(** ** [seir_chain/data_structures/triad.py] *)

Module Triad.

Record t : Type := Build {
  parent_hash : bytes;
  height : Z;
  timestamp : Z;
  nonce : Z;
  miner_address : str;
  difficulty : Z;
  transactions : list Transaction.t;
  tx_merkle_root : bytes;
  child_hashes : list bytes;
  aggregated_proof : bytes;
  committee_pub_key : bytes
}.

(** [Triad.__init__]; [now] is the value of [int(time.time())]. *)
Definition init (parent_hash : bytes) (miner_address : str)
    (height difficulty : Z) (now : Z) : t :=
  Build parent_hash height now 0 miner_address difficulty [] [] [] [] [].

(** Attribute assignments. *)
Definition set_nonce (n : Z) (tr : t) : t :=
  Build (parent_hash tr) (height tr) (timestamp tr) n (miner_address tr)
        (difficulty tr) (transactions tr) (tx_merkle_root tr)
        (child_hashes tr) (aggregated_proof tr) (committee_pub_key tr).

Definition set_tx_merkle_root (r : bytes) (tr : t) : t :=
  Build (parent_hash tr) (height tr) (timestamp tr) (nonce tr)
        (miner_address tr) (difficulty tr) (transactions tr) r
        (child_hashes tr) (aggregated_proof tr) (committee_pub_key tr).

Definition set_transactions (txs : list Transaction.t) (tr : t) : t :=
  Build (parent_hash tr) (height tr) (timestamp tr) (nonce tr)
        (miner_address tr) (difficulty tr) txs (tx_merkle_root tr)
        (child_hashes tr) (aggregated_proof tr) (committee_pub_key tr).

End Triad.

(** ** Methods that mutate the Triad: a state-and-exception monad.

    A computation takes the Triad object and returns its outcome together
    with the object as it stands afterwards (also when it raises). *)

Definition M (A : Type) : Type := Triad.t -> result A * Triad.t.

Definition ret {A} (a : A) : M A := fun tr => (Ok a, tr).

Definition bind {A B} (c : M A) (k : A -> M B) : M B :=
  fun tr =>
    match c tr with
    | (Ok a, tr') => k a tr'
    | (Raise e, tr') => (Raise e, tr')
    end.

Definition raise {A} (e : exn) : M A := fun tr => (Raise e, tr).

Definition get {A} (field : Triad.t -> A) : M A := fun tr => (Ok (field tr), tr).

Definition modify (f : Triad.t -> Triad.t) : M unit := fun tr => (Ok tt, f tr).

Definition lift {A} (r : result A) : M A := fun tr => (r, tr).

Notation "x <- c ;; k" := (bind c (fun x => k))
  (at level 61, c at next level, right associativity).
Notation "c ;;; k" := (bind c (fun _ => k))
  (at level 61, right associativity).

Module TriadMethods.
Import Triad.

(** [to_dict(for_hashing=True)], the only form the header hash uses. *)
Definition to_dict_for_hashing (tr : t) : JSON.dict :=
  [ ("parent_hash", JSON.Str (hex (parent_hash tr)));
    ("height", JSON.Int (height tr));
    ("timestamp", JSON.Int (timestamp tr));
    ("nonce", JSON.Int (nonce tr));
    ("miner_address", JSON.Str (miner_address tr));
    ("difficulty", JSON.Int (difficulty tr));
    ("tx_merkle_root", JSON.Str (hex (tx_merkle_root tr))) ].

(** [[tx.get_hash() for tx in self.transactions]] *)
Fixpoint get_hashes (txs : list Transaction.t) : result (list bytes) :=
  match txs with
  | [] => Ok []
  | tx :: rest =>
      match Transaction.get_hash tx with
      | Raise e => Raise e
      | Ok h =>
          match get_hashes rest with
          | Raise e => Raise e
          | Ok hs => Ok (h :: hs)
          end
      end
  end.

Definition calculate_merkle_root : M unit :=
  txs <- get transactions ;;
  match txs with
  | [] => modify (set_tx_merkle_root (sha256_hash []))
  | _ =>
      tx_hashes <- lift (get_hashes txs) ;;
      modify (set_tx_merkle_root (merkle_root tx_hashes))
  end.

Definition get_header_hash : M bytes :=
  calculate_merkle_root ;;;
  d <- get to_dict_for_hashing ;;
  header_str <- lift (JSON.dumps_sorted d) ;;
  ret (sha256_hash (encode_utf8 header_str)).

Section AddTransaction.
Variable ecdsa_verify : bytes -> bytes -> bytes -> result bool.

Definition add_transaction (transaction : Transaction.t) : M unit :=
  valid <- lift (Transaction.is_valid ecdsa_verify transaction) ;;
  if valid : bool then
    txs <- get transactions ;;
    modify (set_transactions (txs ++ [transaction]))
  else raise (ValueError "Cannot add invalid transaction to Triad.").
End AddTransaction.

End TriadMethods.

(** ** [seir_chain/consensus/vdf.py] *)

Module VDF.

Record t : Type := Build {
  challenge : bytes;
  difficulty : Z;
  output : option bytes;
  proof : option bytes
}.

(** [VDF.__init__] *)
Definition init (challenge : bytes) (difficulty : Z) : result t :=
  if difficulty <? 1 then Raise (ValueError "VDF difficulty must be at least 1.")
  else Ok (Build challenge difficulty None None).

(** [for _ in range(n): current_hash = hashlib.sha256(current_hash).digest()] *)
Fixpoint hash_loop (n : nat) (current_hash : bytes) : bytes :=
  match n with
  | O => current_hash
  | S n' => hash_loop n' (sha256_hash current_hash)
  end.

(** [range(d)] runs [max(d, 0)] times. *)
Definition range_count (d : Z) : nat := Z.to_nat d.

(** [VDF.compute]: the returned pair and the instance afterwards.  The two
    progress messages are left out; the first writes the difficulty
    through [str], which CPython refuses for a difficulty of more than 4300
    digits, where a loop of that many turns would not end either. *)
Definition compute (self : t) : (bytes * bytes) * t :=
  let current_hash := hash_loop (range_count (difficulty self)) (challenge self) in
  let self' := Build (challenge self) (difficulty self)
                     (Some current_hash) (Some current_hash) in
  ((current_hash, current_hash), self').

(** [VDF.verify] (static) *)
Definition verify (challenge : bytes) (difficulty : Z) (output proof : bytes) : bool :=
  if negb (bytes_eqb output proof) then false
  else bytes_eqb (hash_loop (range_count difficulty) challenge) output.

End VDF.

(** ** [seir_chain/consensus/pof.py]

    A [PoF] instance holds a reference to its Triad and [vdf_difficulty];
    the Triad is the state of the monad, so the instance is its
    [vdf_difficulty]. *)

Module PoF.
Import Triad TriadMethods.

Record t : Type := Build { vdf_difficulty : Z }.

Definition get_puzzle_challenge (self : t) : M bytes :=
  get_header_hash.

Definition create_puzzle (self : t) : M (bytes * bytes) :=
  challenge <- get_puzzle_challenge self ;;
  vdf <- lift (VDF.init challenge (vdf_difficulty self)) ;;
  ret (fst (VDF.compute vdf)).

(** [target = 2**256 - 1; target = target >> triad.difficulty]; Python
    raises [ValueError] on a negative shift count. *)
Definition pow_target (difficulty : Z) : result Z :=
  if difficulty <? 0 then Raise (ValueError "negative shift count")
  else Ok (Z.shiftr (2 ^ 256 - 1) difficulty).

(** The [while True] loop of [solve_puzzle], from [nonce] on; [fuel]
    bounds the number of iterations and [None] means it ran out.  The
    nonce found is printed, through [str], before it is returned. *)
Fixpoint search (fuel : nat) (target : Z) (vdf_output : bytes) (nonce : Z)
    (tr : Triad.t) : option (result Z * Triad.t) :=
  match fuel with
  | O => None
  | S fuel' =>
      match (modify (set_nonce nonce) ;;; get_header_hash) tr with
      | (Ok header_hash, tr') =>
          let puzzle_hash_input := header_hash ++ vdf_output in
          let final_hash := sha256_hash puzzle_hash_input in
          if int_from_bytes_big final_hash <? target
          then
            match str_of_int nonce with
            | Ok _ => Some (Ok nonce, tr')
            | Raise e => Some (Raise e, tr')
            end
          else search fuel' target vdf_output (nonce + 1) tr'
      | (Raise e, tr') => Some (Raise e, tr')
      end
  end.

(** [solve_puzzle]: the height is printed, through [str], before the
    target is computed. *)
Definition solve_puzzle (fuel : nat) (vdf_output : bytes) (tr : Triad.t)
  : option (result Z * Triad.t) :=
  match str_of_int (height tr) with
  | Raise e => Some (Raise e, tr)
  | Ok _ =>
      match pow_target (difficulty tr) with
      | Raise e => Some (Raise e, tr)
      | Ok target => search fuel target vdf_output 0 tr
      end
  end.

Definition verify_solution (vdf_difficulty : Z) (vdf_output vdf_proof : bytes)
  : M bool :=
  original_nonce <- get nonce ;;
  modify (set_nonce 0) ;;;
  challenge <- get_header_hash ;;
  modify (set_nonce original_nonce) ;;;
  if negb (VDF.verify challenge vdf_difficulty vdf_output vdf_proof)
  then ret false
  else
    d <- get difficulty ;;
    target <- lift (pow_target d) ;;
    header_hash <- get_header_hash ;;
    let puzzle_hash_input := header_hash ++ vdf_output in
    let final_hash := sha256_hash puzzle_hash_input in
    if int_from_bytes_big final_hash >=? target then ret false
    else ret true.

End PoF.

(** ** [seir_chain/crypto/bls_production.py] *)

(** [enumerate(l)] *)
Definition enumerate {A} (l : list A) : list (Z * A) :=
  combine (map Z.of_nat (seq 0 (length l))) l.

Module ProductionBLS.

(** The dataclass [BLSSignature].  Its [timestamp] is declared [int], and
    is one whenever [sign_message] built the object; the dataclass checks
    nothing, and [deserialize_signature] stores there whatever
    [json.loads] read, so the field holds a JSON value. *)
Record BLSSignature : Type := MkSignature {
  signature : bytes;
  public_key : bytes;
  message : bytes;
  timestamp : JSON.value
}.

(** The dictionary [batch_verify] returns; [verification_time_ms], a
    wall-clock float, is left out. *)
Record BatchResults : Type := MkResults {
  total_signatures : Z;
  valid_signatures : Z;
  invalid_signatures : Z;
  invalid_indices : list Z
}.

Section Library.

(** [py_ecc] is not part of the repository.  [bls_Verify pk msg sig]
    stands for [bls_pop.Verify(pk, msg, sig)] and [bls_Aggregate] for
    [bls_pop.Aggregate]; each returns a value or raises. *)
Variable bls_Verify : bytes -> bytes -> bytes -> result bool.
Variable bls_Aggregate : list bytes -> result bytes.

(** [verify_signature]: any exception of the library gives [False]. *)
Definition verify_signature (sig : BLSSignature) : bool :=
  match bls_Verify (public_key sig) (message sig) (signature sig) with
  | Ok b => b
  | Raise _ => false
  end.

(** The body of the [for i, sig in enumerate(signatures)] loop. *)
Definition batch_step (results : BatchResults) (isig : Z * BLSSignature)
  : BatchResults :=
  if verify_signature (snd isig) then
    MkResults (total_signatures results)
              (valid_signatures results + 1)
              (invalid_signatures results)
              (invalid_indices results)
  else
    MkResults (total_signatures results)
              (valid_signatures results)
              (invalid_signatures results + 1)
              (invalid_indices results ++ [fst isig]).

Definition batch_verify (signatures : list BLSSignature) : BatchResults :=
  let results := MkResults (Z.of_nat (length signatures)) 0 0 [] in
  fold_left batch_step (enumerate signatures) results.

(** The loop [for sig in signatures: if len(sig) != 96: raise ...]. *)
Fixpoint check_lengths (signatures : list bytes) : result unit :=
  match signatures with
  | [] => Ok tt
  | sig :: rest =>
      if negb (length sig =? 96)%nat then
        Raise (ValueError
                 ("Invalid signature length: " ++ repr_int (Z.of_nat (length sig))))
      else check_lengths rest
  end.

Definition aggregate_signatures (signatures : list bytes) : result bytes :=
  match signatures with
  | [] => Raise (ValueError "Cannot aggregate empty signature list")
  | _ =>
      match check_lengths signatures with
      | Raise e => Raise e
      | Ok _ => bls_Aggregate signatures
      end
  end.

End Library.

(** The spec's error taxonomy, on the [ValueError]s of the source. *)
Definition InvalidParameter (e : exn) : Prop :=
  e = ValueError "Cannot aggregate empty signature list".

Definition AggregationLengthMismatch (e : exn) : Prop :=
  exists n : nat, n <> 96%nat /\
    e = ValueError ("Invalid signature length: " ++ repr_int (Z.of_nat n)).

Section PointAddition.

(** The curve group of the library: points, the point at infinity,
    point addition, and the codec between signatures and points
    (decoding raises on a byte string that is no point). *)
Variable G2 : Type.
Variable Z2 : G2.
Variable add : G2 -> G2 -> G2.
Variable signature_to_G2 : bytes -> result G2.
Variable G2_to_signature : G2 -> bytes.

Fixpoint decode_all (signatures : list bytes) : result (list G2) :=
  match signatures with
  | [] => Ok []
  | sig :: rest =>
      match signature_to_G2 sig with
      | Raise e => Raise e
      | Ok p =>
          match decode_all rest with
          | Raise e => Raise e
          | Ok ps => Ok (p :: ps)
          end
      end
  end.

(** Modelled from the spec: [bls_pop.Aggregate] of [py_ecc], which the
    repository calls and does not contain.  The spec says it
    "combines by elliptic-curve point addition": every signature is
    decoded to a point, the points are added up, the sum is encoded. *)
Definition Aggregate (signatures : list bytes) : result bytes :=
  match decode_all signatures with
  | Raise e => Raise e
  | Ok points => Ok (G2_to_signature (fold_left add points Z2))
  end.

End PointAddition.

End ProductionBLS.

(** ** Reference definitions, written from the specification's words, that
    the code is compared with below. *)

Module Reference.

(** Section 4.1, "if the count is odd, duplicate the last digest before
    pairing". *)
Definition duplicate_last_if_odd (level : list bytes) : list bytes :=
  if Nat.odd (length level) then level ++ [last level []] else level.

(** "pair adjacent digests left-to-right; each pair is combined by
    concatenating bytes and hashing". *)
Fixpoint combine_pairs (level : list bytes) : list bytes :=
  match level with
  | l :: r :: rest => sha256_hash (l ++ r) :: combine_pairs rest
  | _ => []
  end.

Definition pair_level (level : list bytes) : list bytes :=
  combine_pairs (duplicate_last_if_odd level).

Opaque sha256_hash.

(** [compute_root]: the empty list gives the digest of the empty byte
    string, a single digest is hashed, and a longer list recurses on its
    paired level. *)
Equations? compute_root (leaf_digests : list bytes) : bytes
  by wf (length leaf_digests) lt :=
  compute_root [] := sha256_hash [];
  compute_root [d] := sha256_hash d;
  compute_root (d1 :: d2 :: rest) := compute_root (pair_level (d1 :: d2 :: rest)).
Proof.
  assert (Hlen : forall l : list bytes,
             (length (combine_pairs l) <= Nat.div2 (length l))%nat).
  { fix IH 1. intros [|a [|b l]]; cbn; [lia | lia |].
    specialize (IH l). lia. }
  unfold pair_level, duplicate_last_if_odd.
  cbn [length combine_pairs].
  destruct (Nat.odd (S (S (length rest)))).
  - cbn [app combine_pairs length].
    specialize (Hlen (rest ++ [last (d1 :: d2 :: rest) []])).
    rewrite length_app in Hlen. cbn [length] in Hlen.
    pose proof (Nat.div2_decr (length rest + 1) (length rest) ltac:(lia)).
    lia.
  - cbn [app combine_pairs length].
    specialize (Hlen rest).
    pose proof (Nat.div2_decr (length rest) (length rest) ltac:(lia)).
    lia.
Qed.

Transparent sha256_hash.

(** Section 4.2, "the transaction's own signature validates against its
    claimed sender identity": signature and public key are present, the
    address derived from the public key is the sender, and the ECDSA
    check of the signature over the payload succeeds. *)
Definition signature_validates
    (ecdsa_verify : bytes -> bytes -> bytes -> result bool)
    (tx : Transaction.t) : bool :=
  match Transaction.signature tx, Transaction.public_key tx with
  | Some (s :: sig), Some (p :: pk) =>
      str_eqb (Transaction.addr_from_pubkey (p :: pk)) (Transaction.from_address tx)
      && match Transaction.payload tx with
         | Ok message =>
             match ecdsa_verify (p :: pk) (s :: sig) message with
             | Ok true => true
             | _ => false
             end
         | Raise _ => false
         end
  | _, _ => false
  end.

(** The calls [add_transaction(tx)] for the transactions of [txs], in
    order. *)
Fixpoint add_all (ecdsa_verify : bytes -> bytes -> bytes -> result bool)
    (txs : list Transaction.t) : M unit :=
  match txs with
  | [] => ret tt
  | tx :: rest =>
      TriadMethods.add_transaction ecdsa_verify tx ;;;
      add_all ecdsa_verify rest
  end.

(** The positions, counted from [start], of the signatures of a list
    that fail individual verification, in ascending order. *)
Fixpoint failing_positions (verify : ProductionBLS.BLSSignature -> bool)
    (start : nat) (signatures : list ProductionBLS.BLSSignature) : list Z :=
  match signatures with
  | [] => []
  | sig :: rest =>
      if verify sig then failing_positions verify (S start) rest
      else Z.of_nat start :: failing_positions verify (S start) rest
  end.

(** The number of signatures of a list that fail individual verification. *)
Definition count_failing (verify : ProductionBLS.BLSSignature -> bool)
    (signatures : list ProductionBLS.BLSSignature) : Z :=
  Z.of_nat (length (filter (fun sig => negb (verify sig)) signatures)).

End Reference.

(** ** Pure readings of the header hash, used to state what the stateful
    methods compute. *)

Module HeaderHash.
Import Triad TriadMethods.

(** Whether [json.dumps] can write the transaction: each of its integers
    has at most 4300 digits. *)
Definition tx_renders (tx : Transaction.t) : bool :=
  int_renders (Transaction.amount tx) && int_renders (Transaction.fee tx)
  && int_renders (Transaction.nonce tx) && int_renders (Transaction.timestamp tx).

(** The same for a header apart from its nonce, transactions included. *)
Definition frame_renders (tr : t) : bool :=
  int_renders (height tr) && int_renders (timestamp tr)
  && int_renders (difficulty tr) && forallb tx_renders (transactions tr).

(** The same for a header with its nonce. *)
Definition renders (tr : t) : bool := int_renders (nonce tr) && frame_renders tr.

(** The Triad after [calculate_merkle_root]. *)
Definition refresh (tr : t) : t := snd (calculate_merkle_root tr).

(** The value [get_header_hash] returns (empty where it raises). *)
Definition header_hash_of (tr : t) : bytes :=
  match fst (get_header_hash tr) with
  | Ok header_hash => header_hash
  | Raise _ => []
  end.

(** The number a candidate nonce [n] is judged by:
    [int.from_bytes(sha256_hash(header_hash + vdf_output), 'big')] with
    the header hashed at nonce [n]. *)
Definition final_hash (tr : t) (vdf_output : bytes) (n : Z) : Z :=
  int_from_bytes_big (sha256_hash (header_hash_of (set_nonce n tr) ++ vdf_output)).

End HeaderHash.

(** ** Sample inputs *)

Module Samples.

Definition reward : Transaction.t :=
  Transaction.Build (str_lit "COINBASE") (str_lit "WACminer") 50 0 0
                    1700000000 None None.

(** A header as [Triad(...)] builds it, with one reward transaction. *)
Definition fresh : Triad.t :=
  Triad.set_transactions [reward]
    (Triad.init (repeat x00 32) (str_lit "WACminer") 1 3 1700000001).

(** The same header with the nonce an earlier search left in it. *)
Definition mined : Triad.t := Triad.set_nonce 1 fresh.

(** An ECDSA library that rejects everything. *)
Definition reject_all (pk sig msg : bytes) : result bool := Ok false.

(** A stand-in group for the curve: integers under addition, a codec that
    reads a signature as a big-endian number, and one that, like the
    point decompression of the library, rejects an encoding whose
    leading (compression) bit is clear. *)
Definition int_decode (sig : bytes) : result Z := Ok (int_from_bytes_big sig).

Definition int_encode (p : Z) : bytes := SHA256.be_bytes 96 p.

Definition flagged_decode (sig : bytes) : result Z :=
  match sig with
  | b :: _ =>
      if Z.testbit (Z_of_byte b) 7 then Ok (int_from_bytes_big sig)
      else Raise (ValueError "c_flag should be 1")
  | [] => Raise (ValueError "c_flag should be 1")
  end.

Definition sig_a : bytes := repeat x01 96.
Definition sig_b : bytes := repeat x02 96.

(** A BLS verification that accepts a signature equal to its message. *)
Definition echo_verify (pk msg sig : bytes) : result bool :=
  if bytes_eqb msg sig then Ok true else Raise (OtherError "ValidationError").

Definition good : ProductionBLS.BLSSignature :=
  ProductionBLS.MkSignature (bytes_lit "m") [] (bytes_lit "m") (JSON.Int 0).

Definition bad : ProductionBLS.BLSSignature :=
  ProductionBLS.MkSignature (bytes_lit "x") [] (bytes_lit "m") (JSON.Int 0).

End Samples.

(** ** Further sample headers *)

Module MoreSamples.

(** [Samples.fresh] with another difficulty. *)
Definition with_difficulty (d : Z) : Triad.t :=
  Triad.set_transactions [Samples.reward]
    (Triad.init (repeat x00 32) (str_lit "WACminer") 1 d 1700000001).

(** [Samples.fresh] after finality: a stale stored root, a child and the
    committee's aggregate attached. *)
Definition finalized : Triad.t :=
  Triad.Build (repeat x00 32) 1 1700000001 0 (str_lit "WACminer") 3
              [Samples.reward] (bytes_lit "stale") [repeat x01 32]
              (repeat x02 96) (repeat x03 48).

(** [Samples.fresh] with a height of 4301 digits, [10 ** 4300], and the
    nonce 7. *)
Definition oversized : Triad.t :=
  Triad.set_nonce 7
    (Triad.set_transactions [Samples.reward]
       (Triad.init (repeat x00 32) (str_lit "WACminer") int_str_bound 3 1700000001)).

End MoreSamples.

(** ** More builtins *)

(** [bytes.fromhex(s)]: ASCII whitespace between bytes is skipped, each
    byte is two hexadecimal digits of either case, and anything else
    raises [ValueError] (its message, which names the position, is not
    modelled). *)
Definition is_space (c : N) : bool :=
  ((c =? 32) || ((9 <=? c) && (c <=? 13)))%N.

Definition hex_value (c : N) : option Z :=
  if ((48 <=? c) && (c <=? 57))%N then Some (Z.of_N c - 48)
  else if ((97 <=? c) && (c <=? 102))%N then Some (Z.of_N c - 87)
  else if ((65 <=? c) && (c <=? 70))%N then Some (Z.of_N c - 55)
  else None.

Definition fromhex_error : exn :=
  ValueError "non-hexadecimal number found in fromhex() arg".

Fixpoint bytes_fromhex (s : str) : result bytes :=
  match s with
  | [] => Ok []
  | c :: rest =>
      if is_space c then bytes_fromhex rest
      else
        match hex_value c, rest with
        | Some top, d :: rest' =>
            match hex_value d with
            | Some bot =>
                match bytes_fromhex rest' with
                | Ok bs => Ok (byte_of_Z (16 * top + bot) :: bs)
                | Raise e => Raise e
                end
            | None => Raise fromhex_error
            end
        | _, _ => Raise fromhex_error
        end
  end.

(** [n.to_bytes(width, 'big')] *)
Definition int_to_bytes_big (n : Z) (width : nat) : result bytes :=
  if (n <? 0) || (2 ^ (8 * Z.of_nat width) <=? n)
  then Raise (OtherError "OverflowError")
  else Ok (SHA256.be_bytes width n).

(** [a <= b] on [bytes]: lexicographic on the unsigned byte values. *)
Fixpoint bytes_leb (a b : bytes) : bool :=
  match a, b with
  | [], _ => true
  | _ :: _, [] => false
  | x :: a', y :: b' =>
      if Z_of_byte x <? Z_of_byte y then true
      else if Z_of_byte y <? Z_of_byte x then false
      else bytes_leb a' b'
  end.

(** [sorted(l)] for a list of [bytes]: the ascending arrangement of the
    list, computed here by insertion. *)
Fixpoint insert_bytes (x : bytes) (l : list bytes) : list bytes :=
  match l with
  | [] => [x]
  | y :: l' => if bytes_leb x y then x :: l else y :: insert_bytes x l'
  end.

Definition sorted (l : list bytes) : list bytes := fold_right insert_bytes [] l.

(** [json.dumps(d)] without [sort_keys]: the keys in insertion order. *)
Definition json_dumps (d : JSON.dict) : result str :=
  match JSON.dump_items d with
  | Ok parts => Ok (str_lit "{" ++ JSON.join (str_lit ", ") parts ++ str_lit "}")
  | Raise e => Raise e
  end.

(** [d[key]] on a dictionary; [None] stands for [KeyError]. *)
Fixpoint dict_get (d : JSON.dict) (key : string) : option JSON.value :=
  match d with
  | [] => None
  | (k, v) :: d' => if String.eqb k key then Some v else dict_get d' key
  end.

(** [os.urandom(n)] on a pool of random bytes: the first [n] bytes and the
    rest of the pool; [None] when the pool is used up. *)
Definition urandom (n : nat) (pool : bytes) : option (bytes * bytes) :=
  if (length pool <? n)%nat then None else Some (firstn n pool, skipn n pool).

(** ** [seir_chain/crypto/key_pair.py]: the key pair *)

Module KeyPair.

(** A key pair, held as its private key ([signing_key.to_string()]). *)
Record t : Type := Build { private_key : bytes }.

Section Library.

(** The [ecdsa] library: the compressed public key of a private key, and
    [SigningKey.sign(message, hashfunc=sha256)], which draws its nonce
    from [entropy]. *)
Variable ecdsa_public_key : bytes -> bytes.
Variable ecdsa_sign : bytes -> bytes -> bytes -> bytes.

Definition public_key (self : t) : bytes := ecdsa_public_key (private_key self).

Definition sign (self : t) (entropy message : bytes) : bytes :=
  ecdsa_sign (private_key self) entropy message.

Definition get_address (self : t) : str :=
  let pub_key_hash := sha256_hash (public_key self) in
  str_lit "WAC" ++ hex (skipn (length pub_key_hash - 20) pub_key_hash).

End Library.

End KeyPair.

(** ** [Transaction.sign] *)

Module Signing.

Definition set_public_key (pk : option bytes) (tx : Transaction.t) : Transaction.t :=
  Transaction.Build (Transaction.from_address tx) (Transaction.to_address tx)
    (Transaction.amount tx) (Transaction.fee tx) (Transaction.nonce tx)
    (Transaction.timestamp tx) (Transaction.signature tx) pk.

Definition set_signature (sig : option bytes) (tx : Transaction.t) : Transaction.t :=
  Transaction.Build (Transaction.from_address tx) (Transaction.to_address tx)
    (Transaction.amount tx) (Transaction.fee tx) (Transaction.nonce tx)
    (Transaction.timestamp tx) sig (Transaction.public_key tx).

Section Library.

Variable ecdsa_public_key : bytes -> bytes.
Variable ecdsa_sign : bytes -> bytes -> bytes -> bytes.

(** [Transaction.sign(key_pair)]: the outcome and the transaction
    afterwards.  The public key is stored before the payload is computed,
    so it stays stored when the payload raises. *)
Definition sign (tx : Transaction.t) (key_pair : KeyPair.t) (entropy : bytes)
  : result unit * Transaction.t :=
  if negb (str_eqb (KeyPair.get_address ecdsa_public_key key_pair)
                   (Transaction.from_address tx))
  then (Raise (ValueError "Cannot sign transaction for another address."), tx)
  else
    let tx1 := set_public_key (Some (KeyPair.public_key ecdsa_public_key key_pair)) tx in
    match Transaction.payload tx1 with
    | Raise e => (Raise e, tx1)
    | Ok message =>
        (Ok tt,
         set_signature (Some (KeyPair.sign ecdsa_sign key_pair entropy message)) tx1)
    end.

End Library.

End Signing.

(** ** [seir_chain/crypto/vrf.py] *)

Module VRF.

Section Library.

Variable ecdsa_sign : bytes -> bytes -> bytes -> bytes.
Variable ecdsa_verify : bytes -> bytes -> bytes -> result bool.

Definition simple_vrf (key_pair : KeyPair.t) (entropy input_data : bytes)
  : bytes * bytes :=
  let proof := KeyPair.sign ecdsa_sign key_pair entropy input_data in
  let random_output := sha256_hash proof in
  (random_output, proof).

Definition simple_vrf_verify (public_key input_data random_output proof : bytes)
  : result bool :=
  match Transaction.KeyPair_verify ecdsa_verify public_key proof input_data with
  | Raise e => Raise e
  | Ok false => Ok false
  | Ok true =>
      let expected_output := sha256_hash proof in
      Ok (bytes_eqb random_output expected_output)
  end.

End Library.

End VRF.

(** ** [seir_chain/data_structures/merkle_tree.py] *)

Module MerkleTree.

Record t : Type := Build { items : list bytes; root : bytes }.

Definition calculate_root (items : list bytes) : bytes :=
  match items with
  | [] => sha256_hash []
  | _ => merkle_root items
  end.

(** [MerkleTree(items)]; the [TypeError] for a non-list is excluded by the
    type. *)
Definition init (items : list bytes) : t := Build items (calculate_root items).

Definition get_root (self : t) : bytes := root self.

Definition get_proof (self : t) (index : Z) : list bytes := [].

Definition verify_proof (root item : bytes) (proof : list bytes) : bool := false.

End MerkleTree.

(** ** [seir_chain/crypto/bls.py]: the simulated aggregation *)

Module BLSStub.

(** [hashlib.sha256()] fed every element in turn hashes their
    concatenation. *)
Definition bls_aggregate_signatures (signatures : list bytes) : bytes :=
  match signatures with
  | [] => []
  | _ => sha256_hash (concat (sorted signatures))
  end.

Definition bls_aggregate_public_keys (public_keys : list bytes) : bytes :=
  match public_keys with
  | [] => []
  | _ => sha256_hash (concat (sorted public_keys))
  end.

Definition nonempty (b : bytes) : bool :=
  match b with [] => false | _ => true end.

Definition bls_verify_aggregated
    (aggregated_signature aggregated_public_key message : bytes) : bool :=
  if negb (nonempty aggregated_signature && nonempty aggregated_public_key
           && nonempty message)
  then false
  else true.

End BLSStub.

(** A decimal digit or a letter [a] to [f]. *)
Definition lower_hex_digit (c : N) : bool :=
  (((48 <=? c) && (c <=? 57)) || ((97 <=? c) && (c <=? 102)))%N.

(** ** A stand-in signature library for the examples: the public key is
    the private key behind a tag byte, a signature is the private key
    followed by the message behind another tag, and verification
    recomputes it. *)

Module ToyECDSA.

Definition public_key (sk : bytes) : bytes := x02 :: sk.

Definition sign (sk entropy message : bytes) : bytes := x30 :: sk ++ message.

Definition verify (pk sig message : bytes) : result bool :=
  Ok (bytes_eqb sig (x30 :: tl pk ++ message)).

Definition alice : KeyPair.t := KeyPair.Build (bytes_lit "alice's key").

(** A payment of 7 from alice's address. *)
Definition payment : Transaction.t :=
  Transaction.Build (KeyPair.get_address public_key alice) (str_lit "WACbob")
                    7 1 0 1700000002 None None.

End ToyECDSA.

(** ** [seir_chain/crypto/bls_production.py]: keys, signing, public-key
    aggregation and serialization *)

Module ProductionKeys.

(** The order of the BLS12-381 curve, [self.curve_order]. *)
Definition curve_order : Z :=
  0x73EDA753299D7D483339D80809A1D80553BDA402FFFE5BFEFFFFFFFF00000001.

Record BLSKeyPair : Type := MkKeyPair {
  secret_key : bytes;
  public_key : bytes;
  key_id : str
}.

Section Library.

(** [py_ecc]: [bls_pop.SkToPk], [bls_pop.Sign], [bls_pop._AggregatePKs] and
    [bls_pop.AggregateVerify], each returning a value or raising; and
    [json.loads], restricted to results that are flat dictionaries. *)
Variable bls_SkToPk : Z -> result bytes.
Variable bls_Sign : Z -> bytes -> result bytes.
Variable bls_AggregatePKs : list bytes -> result bytes.
Variable bls_AggregateVerify : list bytes -> list bytes -> bytes -> result bool.
Variable json_loads : str -> result JSON.dict.

(** The [while True] loop of [generate_key_pair]: draw 32 random bytes
    until the number they spell, reduced modulo the curve order, is in
    range.  [None] when the pool runs dry. *)
Fixpoint draw_secret (fuel : nat) (pool : bytes) : option (Z * bytes) :=
  match fuel with
  | O => None
  | S fuel' =>
      match urandom 32 pool with
      | None => None
      | Some (random_bytes, pool') =>
          let secret_key_int := int_from_bytes_big random_bytes mod curve_order in
          if (0 <? secret_key_int) && (secret_key_int <? curve_order)
          then Some (secret_key_int, pool')
          else draw_secret fuel' pool'
      end
  end.

(** [generate_key_pair(key_id)]: the outcome and the rest of the pool. *)
Definition generate_key_pair (key_id : str) (pool : bytes)
  : option (result BLSKeyPair * bytes) :=
  match draw_secret (S (length pool)) pool with
  | None => None
  | Some (secret_key_int, pool') =>
      Some (match int_to_bytes_big secret_key_int 32 with
            | Raise e => Raise e
            | Ok secret_key =>
                match bls_SkToPk secret_key_int with
                | Raise e => Raise e
                | Ok public_key => Ok (MkKeyPair secret_key public_key key_id)
                end
            end, pool')
  end.

(** [sign_message(message, secret_key)]; the [TypeError] for a message
    that is not [bytes] is excluded by the type. *)
Definition sign_message (message secret_key : bytes) (pool : bytes)
  : option (result ProductionBLS.BLSSignature * bytes) :=
  if negb (length secret_key =? 32)%nat
  then Some (Raise (ValueError "Secret key must be 32 bytes"), pool)
  else
    let secret_key_int := int_from_bytes_big secret_key in
    match bls_Sign secret_key_int message with
    | Raise e => Some (Raise e, pool)
    | Ok signature =>
        match bls_SkToPk secret_key_int with
        | Raise e => Some (Raise e, pool)
        | Ok public_key =>
            match urandom 4 pool with
            | None => None
            | Some (stamp, pool') =>
                Some (Ok (ProductionBLS.MkSignature signature public_key message
                            (JSON.Int (int_from_bytes_big stamp))), pool')
            end
        end
    end.

Fixpoint check_key_lengths (public_keys : list bytes) : result unit :=
  match public_keys with
  | [] => Ok tt
  | pk :: rest =>
      if negb (length pk =? 48)%nat then
        Raise (ValueError
                 ("Invalid public key length: " ++ repr_int (Z.of_nat (length pk))))
      else check_key_lengths rest
  end.

Definition aggregate_public_keys (public_keys : list bytes) : result bytes :=
  match public_keys with
  | [] => Raise (ValueError "Cannot aggregate empty public key list")
  | _ =>
      match check_key_lengths public_keys with
      | Raise e => Raise e
      | Ok _ => bls_AggregatePKs public_keys
      end
  end.

Definition verify_aggregated_signature
    (aggregated_signature aggregated_public_key message : bytes) : bool :=
  match bls_AggregateVerify [aggregated_public_key] [message] aggregated_signature with
  | Ok b => b
  | Raise _ => false
  end.

Definition signature_dict (signature : ProductionBLS.BLSSignature) : JSON.dict :=
  [ ("signature", JSON.Str (hex (ProductionBLS.signature signature)));
    ("public_key", JSON.Str (hex (ProductionBLS.public_key signature)));
    ("message", JSON.Str (hex (ProductionBLS.message signature)));
    ("timestamp", ProductionBLS.timestamp signature) ].

Definition serialize_signature (signature : ProductionBLS.BLSSignature)
  : result str :=
  json_dumps (signature_dict signature).

(** [bytes.fromhex(data[key])]: [KeyError] for a missing key, [TypeError]
    for a value that is no string. *)
Definition hex_field (data : JSON.dict) (key : string) : result bytes :=
  match dict_get data key with
  | None => Raise (OtherError "KeyError")
  | Some (JSON.Str s) => bytes_fromhex s
  | Some _ => Raise (OtherError "TypeError")
  end.

(** [deserialize_signature(serialized)]; the timestamp is stored as it
    was read. *)
Definition deserialize_signature (serialized : str)
  : result ProductionBLS.BLSSignature :=
  match json_loads serialized with
  | Raise e => Raise e
  | Ok data =>
      match hex_field data "signature" with
      | Raise e => Raise e
      | Ok signature =>
          match hex_field data "public_key" with
          | Raise e => Raise e
          | Ok public_key =>
              match hex_field data "message" with
              | Raise e => Raise e
              | Ok message =>
                  match dict_get data "timestamp" with
                  | None => Raise (OtherError "KeyError")
                  | Some timestamp =>
                      Ok (ProductionBLS.MkSignature signature public_key message timestamp)
                  end
              end
          end
      end
  end.

(** The loop of [generate_test_data], from index [i] on, [n] turns; the
    index is written into the key id and the message through [str]. *)
Fixpoint test_data_loop (n : nat) (i : Z) (pool : bytes)
  : option (result (list ProductionBLS.BLSSignature) * bytes) :=
  match n with
  | O => Some (Ok [], pool)
  | S n' =>
      match str_of_int i with
      | Raise e => Some (Raise e, pool)
      | Ok index =>
          match generate_key_pair (str_lit "test_key_" ++ index) pool with
          | None => None
          | Some (Raise e, pool1) => Some (Raise e, pool1)
          | Some (Ok key_pair, pool1) =>
              let message := encode_utf8 (str_lit "test_message_" ++ index) in
              match sign_message message (secret_key key_pair) pool1 with
              | None => None
              | Some (Raise e, pool2) => Some (Raise e, pool2)
              | Some (Ok signature, pool2) =>
                  match test_data_loop n' (i + 1) pool2 with
                  | None => None
                  | Some (Raise e, pool3) => Some (Raise e, pool3)
                  | Some (Ok rest, pool3) => Some (Ok (signature :: rest), pool3)
                  end
              end
          end
      end
  end.

Definition generate_test_data (count : Z) (pool : bytes)
  : option (result (list ProductionBLS.BLSSignature) * bytes) :=
  test_data_loop (Z.to_nat count) 0 pool.

End Library.

End ProductionKeys.

(** ** [tests/performance/tps_benchmark.py]: the chunks of
    [benchmark_concurrent_verification] *)

Module Benchmark.

(** [l[start:stop]] for indices that are not negative. *)
Definition slice {A} (l : list A) (start stop : Z) : list A :=
  firstn (Z.to_nat stop - Z.to_nat start) (skipn (Z.to_nat start) l).

(** [range(n)] *)
Definition range (n : Z) : list Z := map Z.of_nat (seq 0 (Z.to_nat n)).

Section Library.

Variable bls_Verify : bytes -> bytes -> bytes -> result bool.

(** What thread [i] verifies: [signatures[start_idx:end_idx]]. *)
Definition chunk (signatures : list ProductionBLS.BLSSignature)
    (thread_count chunk_size i : Z) : list ProductionBLS.BLSSignature :=
  let start_idx := i * chunk_size in
  let end_idx := if i <? thread_count - 1 then (i + 1) * chunk_size
                 else Z.of_nat (length signatures) in
  slice signatures start_idx end_idx.

(** [total_valid]: every thread stores the result of [batch_verify] on its
    chunk in its own slot, all threads are joined, and the valid counts
    are summed.  Division by a zero [thread_count] raises. *)
Definition total_valid (signatures : list ProductionBLS.BLSSignature)
    (thread_count : Z) : result Z :=
  if thread_count =? 0 then Raise (OtherError "ZeroDivisionError")
  else
    let chunk_size := Z.of_nat (length signatures) / thread_count in
    let results :=
      map (fun i => ProductionBLS.batch_verify bls_Verify
                      (chunk signatures thread_count chunk_size i))
          (range thread_count) in
    Ok (fold_left Z.add (map ProductionBLS.valid_signatures results) 0).

End Library.

End Benchmark.

(** ** [miner_script.py] *)

Module MinerScript.

Section Library.

Variable ecdsa_verify : bytes -> bytes -> bytes -> result bool.

Definition VDF_DIFFICULTY : Z := 10000.

(** [main()]: [miner_address] is the address of the fresh key pair, the
    three [now] values are the clock at the three constructions, and
    [fuel] bounds the nonce search.  The result is the value of
    [is_valid] ([None] when the search ran out of fuel). *)
Definition main (miner_address : str) (now_parent now_new now_tx : Z) (fuel : nat)
  : option (result bool) :=
  let parent_triad := Triad.init (repeat x00 32) (str_lit "genesis") 0 10 now_parent in
  match (TriadMethods.calculate_merkle_root ;;; TriadMethods.get_header_hash)
          parent_triad with
  | (Raise e, _) => Some (Raise e)
  | (Ok parent_hash, _) =>
      let new_triad := Triad.init parent_hash miner_address 1 15 now_new in
      let tx := Transaction.Build (str_lit "COINBASE") miner_address 50 0 0
                                  now_tx None None in
      let pof_puzzle := PoF.Build VDF_DIFFICULTY in
      match (TriadMethods.add_transaction ecdsa_verify tx ;;;
             TriadMethods.calculate_merkle_root ;;;
             TriadMethods.get_header_hash ;;;
             PoF.create_puzzle pof_puzzle) new_triad with
      | (Raise e, _) => Some (Raise e)
      | (Ok (vdf_output, vdf_proof), new_triad1) =>
          match PoF.solve_puzzle fuel vdf_output new_triad1 with
          | None => None
          | Some (Raise e, _) => Some (Raise e)
          | Some (Ok winning_nonce, new_triad2) =>
              let new_triad3 := Triad.set_nonce winning_nonce new_triad2 in
              Some (fst (PoF.verify_solution VDF_DIFFICULTY vdf_output vdf_proof
                                             new_triad3))
          end
      end
  end.

End Library.

End MinerScript.

(** ** A stand-in BLS library for the examples: the public key spells the
    secret number on 48 bytes, a signature is the public key followed by
    the message, and verification recomputes it. *)

Module ToyBLS.

Definition SkToPk (sk : Z) : result bytes := Ok (SHA256.be_bytes 48 sk).

Definition Sign (sk : Z) (message : bytes) : result bytes :=
  Ok (SHA256.be_bytes 48 sk ++ message).

Definition Verify (pk message sig : bytes) : result bool :=
  Ok (bytes_eqb sig (pk ++ message)).

(** 80 random bytes. *)
Definition pool : bytes := repeat x07 80.

End ToyBLS.

(** The library's [json.loads] on the one text the example parses; any
    other text is refused. *)
Definition loads_good (serialized : str) : result JSON.dict :=
  match ProductionKeys.serialize_signature Samples.good with
  | Ok text =>
      if str_eqb serialized text
      then Ok (ProductionKeys.signature_dict Samples.good)
      else Raise (OtherError "JSONDecodeError")
  | Raise e => Raise e
  end.

(** * Properties *)

(** ** The primitives agree with CPython on test vectors *)

Example sha256_constants :
  length SHA256.primes = 64%nat /\ nth 0 SHA256.K 0 = 0x428a2f98
  /\ nth 63 SHA256.K 0 = 0xc67178f2 /\ SHA256.ra SHA256.H0 = 0x6a09e667.
Proof. repeat split. Qed.

Example sha256_empty :
  hex (sha256_hash []) =
  str_lit "e3b0c44298fc1c149afbf4c8996fb92427ae41e4649b934ca495991b7852b855".
Proof. vm_compute. reflexivity. Qed.


Example sha256_abc :
  hex (sha256_hash (bytes_lit "abc")) =
  str_lit "ba7816bf8f01cfea414140de5dae2223b00361a396177a9cb410ff61f20015ad".
Proof. vm_compute. reflexivity. Qed.


Example sha256_four_blocks :
  hex (sha256_hash (repeat "a"%byte 200)) =
  str_lit "c2a908d98f5df987ade41b5fce213067efbcc21ef2240212a41e54b5e7c28ae5".
Proof. vm_compute. reflexivity. Qed.


Example merkle_three :
  hex (merkle_root [bytes_lit "a"; bytes_lit "b"; bytes_lit "c"]) =
  str_lit "465014fe0b71bd6a2481ff4864000e9f48160ea9ff3d0786ddb5458f4ac8c68b".
Proof. vm_compute. reflexivity. Qed.


(** Checked against CPython: the digest of the dumped text for a dictionary
    with a negative integer, [None], and a string holding a quote, U+00E9, a
    tab, U+1F600 and a backslash. *)
Example json_dumps_sample :
  match JSON.dumps_sorted
    [ ("nonce", JSON.Int (-7)); ("height", JSON.Int 0);
      ("miner_address", JSON.Str ([34; 233; 9; 128512; 92] ++ str_lit "ok ~")%N);
      ("signature", JSON.Null) ]
  with
  | Ok text =>
      hex (sha256_hash (encode_utf8 text))
      = str_lit "ec8b0cc306cb81b106e077b8b361cc232a6b862aefb91dc37d3291e5361e41a1"
  | Raise _ => False
  end.
Proof. vm_compute. reflexivity. Qed.

(** An integer of 4300 digits is written, one of 4301 digits is refused,
    whatever its sign. *)
Example str_of_int_limit :
  (exists text, str_of_int (int_str_bound - 1) = Ok text /\ length text = 4300%nat)
  /\ str_of_int int_str_bound = Raise int_conversion_error
  /\ str_of_int (- int_str_bound) = Raise int_conversion_error
  /\ JSON.dumps_sorted [("height", JSON.Int int_str_bound)]
     = Raise int_conversion_error.
Proof.
  split; [eexists; split; [vm_compute; reflexivity|vm_compute; reflexivity]|].
  repeat split; vm_compute; reflexivity.
Qed.


Example header_hash_sample :
  hex (HeaderHash.header_hash_of Samples.fresh) =
  str_lit "668c73cf3d93054d2442f223e0d1fec77075c7cf950a94d72dda2b6d84138dfc".
Proof. vm_compute. reflexivity. Qed.

(** ** Equality tests *)

Lemma bytes_eqb_refl (a : bytes) : bytes_eqb a a = true.
Proof.
  induction a as [|x a IH]; cbn; [reflexivity|].
  rewrite IH, andb_true_r. now apply Byte.byte_dec_lb.
Qed.

Lemma bytes_eqb_eq (a b : bytes) : bytes_eqb a b = true <-> a = b.
Proof.
  split; [|intros ->; apply bytes_eqb_refl].
  revert b; induction a as [|x a IH]; intros [|y b]; cbn; try easy.
  intros H. apply andb_prop in H as [Hx Hr].
  apply Byte.byte_dec_bl in Hx. f_equal; auto.
Qed.

(** ** Merkle commitment *)

Section Merkle.

Local Opaque sha256_hash.

Lemma next_level_length (items : list bytes) :
  length (next_level items) = Nat.div2 (S (length items)).
Proof.
  unfold next_level, range_step2.
  now rewrite !length_map, length_seq.
Qed.

Lemma next_level_nil : next_level [] = [].
Proof. reflexivity. Qed.

Lemma next_level_one (x : bytes) : next_level [x] = [sha256_hash (x ++ x)].
Proof. reflexivity. Qed.

(** One turn of the loop consumes two items. *)
Lemma next_level_two (x y : bytes) (rest : list bytes) :
  next_level (x :: y :: rest) = sha256_hash (x ++ y) :: next_level rest.
Proof.
  unfold next_level, range_step2.
  cbn [length].
  change (Nat.div2 (S (S (S (length rest))))) with (S (Nat.div2 (S (length rest)))).
  cbn [seq map]. f_equal.
  rewrite <- seq_shift, !map_map.
  apply map_ext. intros k.
  replace (2 * S k)%nat with (S (S (2 * k))) by lia.
  cbn [nth Nat.add].
  replace (S (S (2 * k + 1)) <? S (S (length rest)))%nat
    with (2 * k + 1 <? length rest)%nat
    by (destruct (Nat.ltb_spec (2 * k + 1) (length rest));
        destruct (Nat.ltb_spec (S (S (2 * k + 1))) (S (S (length rest)))); lia).
  reflexivity.
Qed.

Lemma pair_level_two (x y : bytes) (rest : list bytes) :
  Reference.pair_level (x :: y :: rest) =
  sha256_hash (x ++ y) :: Reference.pair_level rest.
Proof.
  unfold Reference.pair_level, Reference.duplicate_last_if_odd.
  cbn [length]. rewrite Nat.odd_succ_succ.
  destruct (Nat.odd (length rest)) eqn:Hodd; [|reflexivity].
  destruct rest as [|z rest]; [discriminate|].
  reflexivity.
Qed.

(** The index loop of the code builds the level the specification
    describes. *)
Lemma next_level_pair_level (items : list bytes) :
  next_level items = Reference.pair_level items.
Proof.
  revert items. fix IH 1. intros [|x [|y rest]].
  - reflexivity.
  - reflexivity.
  - rewrite next_level_two, pair_level_two. f_equal. apply IH.
Qed.

Lemma merkle_root_compute_root_bounded (n : nat) :
  forall items, (length items < n)%nat ->
    merkle_root items = Reference.compute_root items.
Proof.
  induction n as [|n IH]; intros items Hn; [lia|].
  destruct items as [|x [|y rest]].
  - now rewrite merkle_root_equation_1, Reference.compute_root_equation_1.
  - now rewrite merkle_root_equation_2, Reference.compute_root_equation_2.
  - rewrite merkle_root_equation_3, Reference.compute_root_equation_3.
    rewrite <- next_level_pair_level. apply IH.
    rewrite next_level_length. cbn [length] in *.
    change (Nat.div2 (S (S (S (length rest))))) with (S (Nat.div2 (S (length rest)))).
    pose proof (Nat.div2_decr (S (length rest)) (length rest) ltac:(lia)).
    lia.
Qed.

(** C5.  [merkle_root] is the reference Merkle definition of the
    specification: the digest of the empty byte string for the empty
    list, the hash of the digest for a single digest, and otherwise the
    root of the level obtained by duplicating the last digest when the
    count is odd and hashing the concatenation of each adjacent pair,
    left to right. *)
Theorem merkle_root_is_compute_root (items : list bytes) :
  merkle_root items = Reference.compute_root items
  /\ merkle_root [] = sha256_hash []
  /\ (forall d, merkle_root [d] = sha256_hash d)
  /\ (forall d1 d2 rest,
        merkle_root (d1 :: d2 :: rest) =
        merkle_root (Reference.combine_pairs
                       (Reference.duplicate_last_if_odd (d1 :: d2 :: rest)))).
Proof.
  split; [|split; [|split]].
  - apply (merkle_root_compute_root_bounded (S (length items))). lia.
  - apply merkle_root_equation_1.
  - apply merkle_root_equation_2.
  - intros d1 d2 rest. rewrite merkle_root_equation_3.
    now rewrite next_level_pair_level.
Qed.

(** C10.  Appending a copy of the last of three leaves leaves the root
    unchanged (for digests of any length, 32 bytes included), although
    the two lists differ. *)
Theorem merkle_root_duplicate_last (a b c : bytes) :
  merkle_root [a; b; c] = merkle_root [a; b; c; c]
  /\ [a; b; c] <> [a; b; c; c].
Proof.
  split; [|discriminate].
  rewrite !merkle_root_equation_3.
  rewrite !next_level_two, next_level_one, next_level_nil.
  reflexivity.
Qed.

End Merkle.

(** ** Verifiable delay *)

Lemma hash_loop_iter (n : nat) (c : bytes) :
  VDF.hash_loop n c = Nat.iter n sha256_hash c.
Proof.
  revert c; induction n as [|n IH]; intros c; [reflexivity|].
  cbn [VDF.hash_loop]. rewrite IH. symmetry. apply Nat.iter_succ_r.
Qed.



(** A difficulty below 1 is refused at construction. *)
Lemma vdf_init_rejects (c : bytes) (d : Z) :
  d < 1 -> VDF.init c d = Raise (ValueError "VDF difficulty must be at least 1.").
Proof.
  intros Hd. unfold VDF.init. destruct (Z.ltb_spec d 1); [reflexivity|lia].
Qed.

(** ** Digest sizes *)

Lemma be_bytes_length (width : nat) (x : Z) :
  length (SHA256.be_bytes width x) = width.
Proof. unfold SHA256.be_bytes. now rewrite length_map, length_rev, length_seq. Qed.

(** [sha256_hash] returns 32 bytes on every input. *)
Lemma sha256_hash_length (data : bytes) : length (sha256_hash data) = 32%nat.
Proof.
  unfold sha256_hash, SHA256.digest.
  set (h := SHA256.blocks _ _ _). cbn [flat_map].
  now rewrite !length_app, !be_bytes_length.
Qed.

(** ** Integers that [str] refuses *)

Lemma int_str_bound_large : 2 ^ 256 <= int_str_bound.
Proof. vm_compute. discriminate. Qed.

Lemma int_renders_iff (n : Z) : int_renders n = true <-> Z.abs n < int_str_bound.
Proof. apply Z.ltb_lt. Qed.

Lemma int_renders_0 : int_renders 0 = true.
Proof. reflexivity. Qed.

Lemma int_renders_small (n : Z) : Z.abs n < 2 ^ 256 -> int_renders n = true.
Proof. intros H. apply int_renders_iff. pose proof int_str_bound_large. lia. Qed.

Lemma int_renders_between (m n : Z) :
  0 <= m <= n -> int_renders n = true -> int_renders m = true.
Proof. rewrite !int_renders_iff. lia. Qed.

Section Rendering.

Local Opaque int_renders sha256_hash.

Lemma dump_items_ok (d : JSON.dict) :
  JSON.renders d = true -> exists parts, JSON.dump_items d = Ok parts.
Proof.
  induction d as [|[k v] d IH]; [now exists []|].
  unfold JSON.renders. cbn [forallb snd]. intros H.
  apply andb_prop in H as [Hv Hd]. destruct (IH Hd) as [parts Hparts].
  cbn [JSON.dump_items]. unfold JSON.dump_item. cbn [fst snd]. rewrite Hparts.
  destruct v as [n| |]; cbn [JSON.dump_value JSON.value_renders] in *;
    [unfold str_of_int; rewrite Hv|..]; eexists; reflexivity.
Qed.

Lemma dump_items_raises (d : JSON.dict) :
  JSON.renders d = false -> JSON.dump_items d = Raise int_conversion_error.
Proof.
  induction d as [|[k v] d IH]; [discriminate|].
  unfold JSON.renders. cbn [forallb snd]. intros H.
  cbn [JSON.dump_items]. unfold JSON.dump_item. cbn [fst snd].
  destruct v as [n| |]; cbn [JSON.dump_value JSON.value_renders] in *.
  - unfold str_of_int. destruct (int_renders n); [|reflexivity].
    now rewrite (IH H).
  - now rewrite (IH H).
  - now rewrite (IH H).
Qed.

Lemma insert_key_renders (kv : string * JSON.value) (d : JSON.dict) :
  JSON.renders (JSON.insert_key kv d)
  = JSON.value_renders (snd kv) && JSON.renders d.
Proof.
  unfold JSON.renders.
  induction d as [|kv' d IH]; cbn [JSON.insert_key forallb]; [reflexivity|].
  destruct (String.leb (fst kv) (fst kv')); cbn [forallb]; [reflexivity|].
  rewrite IH.
  destruct (JSON.value_renders (snd kv)), (JSON.value_renders (snd kv'));
    reflexivity.
Qed.

Lemma sort_keys_renders (d : JSON.dict) :
  JSON.renders (JSON.sort_keys d) = JSON.renders d.
Proof.
  induction d as [|kv d IH]; [reflexivity|].
  cbn [JSON.sort_keys fold_right]. rewrite insert_key_renders.
  fold (JSON.sort_keys d). now rewrite IH.
Qed.

Lemma dumps_sorted_ok (d : JSON.dict) :
  JSON.renders d = true -> exists text, JSON.dumps_sorted d = Ok text.
Proof.
  intros H. rewrite <- sort_keys_renders in H.
  destruct (dump_items_ok _ H) as [parts Hparts].
  unfold JSON.dumps_sorted. rewrite Hparts. eexists; reflexivity.
Qed.

Lemma dumps_sorted_raises (d : JSON.dict) :
  JSON.renders d = false -> JSON.dumps_sorted d = Raise int_conversion_error.
Proof.
  intros H. rewrite <- sort_keys_renders in H.
  unfold JSON.dumps_sorted. now rewrite (dump_items_raises _ H).
Qed.

Lemma to_dict_renders (tx : Transaction.t) (with_signature : bool) :
  JSON.renders (Transaction.to_dict tx with_signature) = HeaderHash.tx_renders tx.
Proof.
  unfold JSON.renders, Transaction.to_dict, HeaderHash.tx_renders.
  destruct with_signature; cbn [forallb app snd JSON.value_renders].
  - destruct (Transaction.public_key tx) as [[|? ?]|],
             (Transaction.signature tx) as [[|? ?]|];
      cbn [Transaction.hex_or_none JSON.value_renders];
      destruct (int_renders (Transaction.amount tx)),
               (int_renders (Transaction.fee tx)),
               (int_renders (Transaction.nonce tx)),
               (int_renders (Transaction.timestamp tx)); reflexivity.
  - destruct (int_renders (Transaction.amount tx)),
             (int_renders (Transaction.fee tx)),
             (int_renders (Transaction.nonce tx)),
             (int_renders (Transaction.timestamp tx)); reflexivity.
Qed.

Lemma payload_ok (tx : Transaction.t) :
  HeaderHash.tx_renders tx = true -> exists message, Transaction.payload tx = Ok message.
Proof.
  intros H. rewrite <- (to_dict_renders tx false) in H.
  destruct (dumps_sorted_ok _ H) as [text Htext].
  unfold Transaction.payload. rewrite Htext. eexists; reflexivity.
Qed.

Lemma payload_raises (tx : Transaction.t) :
  HeaderHash.tx_renders tx = false ->
  Transaction.payload tx = Raise int_conversion_error.
Proof.
  intros H. rewrite <- (to_dict_renders tx false) in H.
  unfold Transaction.payload. now rewrite (dumps_sorted_raises _ H).
Qed.

Lemma payload_raise_inv (tx : Transaction.t) (e : exn) :
  Transaction.payload tx = Raise e ->
  e = int_conversion_error /\ HeaderHash.tx_renders tx = false.
Proof.
  intros H. destruct (HeaderHash.tx_renders tx) eqn:Hr.
  - destruct (payload_ok _ Hr) as [message Hm]. congruence.
  - rewrite (payload_raises _ Hr) in H. split; congruence.
Qed.

Lemma get_hash_ok (tx : Transaction.t) :
  HeaderHash.tx_renders tx = true ->
  exists h, Transaction.get_hash tx = Ok h /\ length h = 32%nat.
Proof.
  intros H. rewrite <- (to_dict_renders tx true) in H.
  destruct (dumps_sorted_ok _ H) as [text Htext].
  unfold Transaction.get_hash. rewrite Htext.
  eexists; split; [reflexivity|]. apply sha256_hash_length.
Qed.

Lemma get_hash_raises (tx : Transaction.t) :
  HeaderHash.tx_renders tx = false ->
  Transaction.get_hash tx = Raise int_conversion_error.
Proof.
  intros H. rewrite <- (to_dict_renders tx true) in H.
  unfold Transaction.get_hash. now rewrite (dumps_sorted_raises _ H).
Qed.

Lemma get_hashes_ok (txs : list Transaction.t) :
  forallb HeaderHash.tx_renders txs = true ->
  exists hs, TriadMethods.get_hashes txs = Ok hs.
Proof.
  induction txs as [|tx txs IH]; [now exists []|].
  cbn [forallb]. intros H. apply andb_prop in H as [Htx Htxs].
  destruct (get_hash_ok _ Htx) as (h & Hh & _). destruct (IH Htxs) as [hs Hhs].
  cbn [TriadMethods.get_hashes]. rewrite Hh, Hhs. eexists; reflexivity.
Qed.

Lemma get_hashes_raises (txs : list Transaction.t) :
  forallb HeaderHash.tx_renders txs = false ->
  TriadMethods.get_hashes txs = Raise int_conversion_error.
Proof.
  induction txs as [|tx txs IH]; [discriminate|].
  cbn [forallb TriadMethods.get_hashes]. intros H.
  destruct (HeaderHash.tx_renders tx) eqn:Htx.
  - destruct (get_hash_ok _ Htx) as (h & Hh & _). rewrite Hh.
    now rewrite (IH H).
  - now rewrite (get_hash_raises _ Htx).
Qed.

End Rendering.

(** ** The header hash *)

Section Header.
Import Triad TriadMethods HeaderHash.

Local Opaque sha256_hash merkle_root int_renders.

Lemma calculate_merkle_root_eq (tr : Triad.t) :
  calculate_merkle_root tr
  = (if forallb tx_renders (transactions tr) then Ok tt
     else Raise int_conversion_error,
     refresh tr).
Proof.
  unfold refresh, calculate_merkle_root, bind, get, modify, lift.
  destruct (transactions tr) as [|tx txs] eqn:E; [reflexivity|].
  destruct (forallb tx_renders (tx :: txs)) eqn:Hr.
  - destruct (get_hashes_ok _ Hr) as [hs ->]. reflexivity.
  - now rewrite (get_hashes_raises _ Hr).
Qed.

(** [calculate_merkle_root] changes the stored root and nothing else. *)
Lemma refresh_root (tr : Triad.t) :
  refresh tr = set_tx_merkle_root (tx_merkle_root (refresh tr)) tr.
Proof.
  unfold refresh, calculate_merkle_root, bind, get, modify, lift.
  destruct (transactions tr) as [|tx txs]; [reflexivity|].
  destruct (get_hashes (tx :: txs)); [reflexivity|]. now destruct tr.
Qed.

Lemma refresh_set_nonce (n : Z) (tr : Triad.t) :
  refresh (set_nonce n tr) = set_nonce n (refresh tr).
Proof.
  unfold refresh, calculate_merkle_root, bind, get, modify, lift.
  cbn [transactions set_nonce].
  destruct (transactions tr) as [|tx txs]; [reflexivity|].
  destruct (get_hashes (tx :: txs)); reflexivity.
Qed.

Lemma calculate_merkle_root_refresh (tr : Triad.t) :
  calculate_merkle_root (refresh tr) = calculate_merkle_root tr.
Proof.
  destruct tr as [? ? ? ? ? ? txs ? ? ? ?].
  unfold refresh, calculate_merkle_root, bind, get, modify, lift.
  cbn -[get_hashes merkle_root sha256_hash].
  destruct txs as [|tx txs]; [reflexivity|].
  destruct (get_hashes (tx :: txs)) eqn:E;
    cbn -[get_hashes merkle_root sha256_hash]; rewrite ?E; reflexivity.
Qed.

Lemma refresh_idem (tr : Triad.t) : refresh (refresh tr) = refresh tr.
Proof. unfold refresh at 1. now rewrite calculate_merkle_root_refresh. Qed.

Lemma nonce_refresh (tr : Triad.t) : nonce (refresh tr) = nonce tr.
Proof. now rewrite refresh_root. Qed.

Lemma difficulty_refresh (tr : Triad.t) : difficulty (refresh tr) = difficulty tr.
Proof. now rewrite refresh_root. Qed.

Lemma height_refresh (tr : Triad.t) : height (refresh tr) = height tr.
Proof. now rewrite refresh_root. Qed.

Lemma transactions_refresh (tr : Triad.t) : transactions (refresh tr) = transactions tr.
Proof. now rewrite refresh_root. Qed.

Lemma renders_refresh (tr : Triad.t) : renders (refresh tr) = renders tr.
Proof. now rewrite refresh_root. Qed.

Lemma frame_renders_refresh (tr : Triad.t) :
  frame_renders (refresh tr) = frame_renders tr.
Proof. now rewrite refresh_root. Qed.

Lemma renders_set_nonce (n : Z) (tr : Triad.t) :
  renders (set_nonce n tr) = int_renders n && frame_renders tr.
Proof. reflexivity. Qed.

Lemma renders_frame (tr : Triad.t) : renders tr = true -> frame_renders tr = true.
Proof. unfold renders. intros H. now apply andb_prop in H. Qed.

Lemma get_header_hash_unfold (tr : Triad.t) :
  get_header_hash tr
  = (match fst (calculate_merkle_root tr) with
     | Raise e => Raise e
     | Ok _ =>
         match JSON.dumps_sorted (to_dict_for_hashing (refresh tr)) with
         | Ok header_str => Ok (sha256_hash (encode_utf8 header_str))
         | Raise e => Raise e
         end
     end,
     refresh tr).
Proof.
  unfold get_header_hash, refresh, bind, get, lift, ret.
  destruct (calculate_merkle_root tr) as [[[]|e] tr']; cbn [fst snd];
    [|reflexivity].
  destruct (JSON.dumps_sorted (to_dict_for_hashing tr')); reflexivity.
Qed.

Lemma header_renders (tr : Triad.t) :
  JSON.renders (to_dict_for_hashing tr) && forallb tx_renders (transactions tr)
  = renders tr.
Proof.
  unfold JSON.renders, to_dict_for_hashing, renders, frame_renders.
  cbn [forallb snd JSON.value_renders].
  destruct (int_renders (height tr)), (int_renders (timestamp tr)),
           (int_renders (nonce tr)), (int_renders (difficulty tr));
    reflexivity.
Qed.

Lemma get_header_hash_ok (tr : Triad.t) :
  renders tr = true ->
  exists h, get_header_hash tr = (Ok h, refresh tr) /\ length h = 32%nat.
Proof.
  intros H. rewrite <- renders_refresh, <- header_renders in H.
  apply andb_prop in H as [Hd Htxs]. rewrite transactions_refresh in Htxs.
  rewrite get_header_hash_unfold, calculate_merkle_root_eq, Htxs. cbn [fst].
  destruct (dumps_sorted_ok _ Hd) as [text ->].
  eexists; split; [reflexivity|]. apply sha256_hash_length.
Qed.

Lemma get_header_hash_raises (tr : Triad.t) :
  renders tr = false ->
  get_header_hash tr = (Raise int_conversion_error, refresh tr).
Proof.
  intros H. rewrite <- renders_refresh, <- header_renders in H.
  rewrite transactions_refresh in H.
  rewrite get_header_hash_unfold, calculate_merkle_root_eq.
  destruct (forallb tx_renders (transactions tr)); cbn [fst]; [|reflexivity].
  rewrite andb_true_r in H. now rewrite (dumps_sorted_raises _ H).
Qed.

(** [get_header_hash] raises exactly on a header that does not render,
    and leaves the header as [calculate_merkle_root] leaves it. *)
Lemma get_header_hash_eq (tr : Triad.t) :
  get_header_hash tr
  = (if renders tr then Ok (header_hash_of tr) else Raise int_conversion_error,
     refresh tr).
Proof.
  destruct (renders tr) eqn:H.
  - unfold header_hash_of.
    destruct (get_header_hash_ok tr H) as (h & -> & _). reflexivity.
  - now apply get_header_hash_raises.
Qed.

Lemma header_hash_of_length (tr : Triad.t) :
  renders tr = true -> length (header_hash_of tr) = 32%nat.
Proof.
  intros H. unfold header_hash_of.
  destruct (get_header_hash_ok tr H) as (h & -> & Hlen). exact Hlen.
Qed.

Lemma get_header_hash_refresh (tr : Triad.t) :
  get_header_hash (refresh tr) = get_header_hash tr.
Proof.
  rewrite !get_header_hash_unfold.
  now rewrite calculate_merkle_root_refresh, refresh_idem.
Qed.

Lemma header_hash_of_refresh (tr : Triad.t) :
  header_hash_of (refresh tr) = header_hash_of tr.
Proof. unfold header_hash_of. now rewrite get_header_hash_refresh. Qed.

Lemma set_nonce_set_nonce (n m : Z) (tr : Triad.t) :
  set_nonce n (set_nonce m tr) = set_nonce n tr.
Proof. reflexivity. Qed.

Lemma set_nonce_same (tr : Triad.t) : set_nonce (nonce tr) tr = tr.
Proof. now destruct tr. Qed.

Lemma nonce_set_nonce (n : Z) (tr : Triad.t) : nonce (set_nonce n tr) = n.
Proof. reflexivity. Qed.

Lemma difficulty_set_nonce (n : Z) (tr : Triad.t) :
  difficulty (set_nonce n tr) = difficulty tr.
Proof. reflexivity. Qed.

(** [get_header_hash] recomputes the Merkle root and is idempotent on the
    object. *)
Lemma get_header_hash_twice (tr : Triad.t) :
  get_header_hash (snd (get_header_hash tr)) = get_header_hash tr.
Proof.
  rewrite (get_header_hash_eq tr) at 1. cbn [snd].
  apply get_header_hash_refresh.
Qed.

End Header.

(** ** The Proof-of-Fractal puzzle *)

Section Puzzle.
Import Triad TriadMethods HeaderHash.

Local Opaque sha256_hash merkle_root int_renders.

Lemma header_hash_of_set_nonce_refresh (n : Z) (tr : Triad.t) :
  header_hash_of (set_nonce n (refresh tr)) = header_hash_of (set_nonce n tr).
Proof. now rewrite <- refresh_set_nonce, header_hash_of_refresh. Qed.

Lemma final_hash_refresh (tr : Triad.t) (out : bytes) (n : Z) :
  final_hash (refresh tr) out n = final_hash tr out n.
Proof. unfold final_hash. now rewrite header_hash_of_set_nonce_refresh. Qed.

Lemma final_hash_set_nonce (tr : Triad.t) (out : bytes) (n m : Z) :
  final_hash (set_nonce m tr) out n = final_hash tr out n.
Proof. reflexivity. Qed.

(** [get_puzzle_challenge] hashes the header as it stands. *)
Lemma get_puzzle_challenge_eq (p : PoF.t) (tr : Triad.t) :
  PoF.get_puzzle_challenge p tr
  = (if renders tr then Ok (header_hash_of tr) else Raise int_conversion_error,
     refresh tr).
Proof. apply get_header_hash_eq. Qed.

Lemma create_puzzle_eq (p : PoF.t) (tr : Triad.t) :
  PoF.create_puzzle p tr =
  (if renders tr then
     if PoF.vdf_difficulty p <? 1
     then Raise (ValueError "VDF difficulty must be at least 1.")
     else let out := VDF.hash_loop (VDF.range_count (PoF.vdf_difficulty p))
                                   (header_hash_of tr) in
          Ok (out, out)
   else Raise int_conversion_error,
   refresh tr).
Proof.
  unfold PoF.create_puzzle, bind, lift, ret.
  rewrite get_puzzle_challenge_eq.
  destruct (renders tr); [|reflexivity]. unfold VDF.init.
  destruct (PoF.vdf_difficulty p <? 1); reflexivity.
Qed.

(** [verify_solution] hashes the header twice: at nonce 0, which raises
    before the nonce is restored when the rest of the header does not
    render, and at the header's own nonce. *)
Lemma verify_solution_eq (d : Z) (out prf : bytes) (tr : Triad.t) :
  PoF.verify_solution d out prf tr =
  if frame_renders tr then
    (if negb (VDF.verify (header_hash_of (set_nonce 0 tr)) d out prf) then Ok false
     else match PoF.pow_target (difficulty tr) with
          | Raise e => Raise e
          | Ok target =>
              if int_renders (nonce tr) then
                if final_hash tr out (nonce tr) >=? target then Ok false else Ok true
              else Raise int_conversion_error
          end,
     refresh tr)
  else (Raise int_conversion_error, set_nonce 0 (refresh tr)).
Proof.
  unfold PoF.verify_solution, bind, get, modify, lift, ret.
  rewrite get_header_hash_eq, renders_set_nonce, int_renders_0, refresh_set_nonce.
  cbn [andb]. destruct (frame_renders tr) eqn:Hf; [|reflexivity].
  rewrite set_nonce_set_nonce.
  rewrite <- (nonce_refresh tr) at 1. rewrite set_nonce_same.
  destruct (VDF.verify _ d out prf); cbn [negb]; [|reflexivity].
  rewrite difficulty_refresh.
  destruct (PoF.pow_target (difficulty tr)) as [target|e]; [|reflexivity].
  rewrite get_header_hash_eq, renders_refresh, header_hash_of_refresh, refresh_idem.
  unfold renders. rewrite Hf, andb_true_r.
  destruct (int_renders (nonce tr)); [|reflexivity].
  unfold final_hash. rewrite set_nonce_same.
  destruct (_ >=? target); reflexivity.
Qed.

Lemma search_step (fuel : nat) (target : Z) (out : bytes) (k : Z) (tr : Triad.t) :
  PoF.search (S fuel) target out k tr =
  if renders (set_nonce k tr) then
    if final_hash tr out k <? target
    then Some (Ok k, set_nonce k (refresh tr))
    else PoF.search fuel target out (k + 1) (set_nonce k (refresh tr))
  else Some (Raise int_conversion_error, set_nonce k (refresh tr)).
Proof.
  cbn [PoF.search]. unfold bind, modify.
  rewrite get_header_hash_eq, refresh_set_nonce.
  destruct (renders (set_nonce k tr)) eqn:Hr; [|reflexivity].
  change (int_from_bytes_big (sha256_hash (header_hash_of (set_nonce k tr) ++ out)))
    with (final_hash tr out k).
  destruct (final_hash tr out k <? target); [|reflexivity].
  rewrite renders_set_nonce in Hr. apply andb_prop in Hr as [Hk _].
  unfold str_of_int. now rewrite Hk.
Qed.

(** What a returned nonce satisfies: it is the first one from [k] on
    whose final hash is below the target, and the header is left with it. *)
Lemma search_returns (fuel : nat) (target : Z) (out : bytes) :
  forall (k : Z) (tr : Triad.t) (n : Z) (tr2 : Triad.t),
    PoF.search fuel target out k tr = Some (Ok n, tr2) ->
    k <= n
    /\ tr2 = set_nonce n (refresh tr)
    /\ renders (set_nonce n tr) = true
    /\ final_hash tr out n < target
    /\ (forall m, k <= m < n -> target <= final_hash tr out m).
Proof.
  induction fuel as [|fuel IH]; intros k tr n tr2 H; [discriminate|].
  rewrite search_step in H.
  destruct (renders (set_nonce k tr)) eqn:Hr; [|discriminate].
  destruct (Z.ltb_spec (final_hash tr out k) target) as [Hlt|Hge].
  - injection H as <- <-. repeat split; try lia; auto.
  - apply IH in H as (Hk & -> & Hrn & Hlt & Hmin).
    rewrite final_hash_set_nonce, final_hash_refresh in Hlt.
    rewrite set_nonce_set_nonce, <- refresh_set_nonce, renders_refresh in Hrn.
    repeat split; try lia; auto.
    + now rewrite refresh_set_nonce, refresh_idem, set_nonce_set_nonce.
    + intros m Hm. destruct (Z.eq_dec m k) as [->|Hne]; [assumption|].
      specialize (Hmin m ltac:(lia)).
      now rewrite final_hash_set_nonce, final_hash_refresh in Hmin.
Qed.

(** The search raises only where the header stops rendering: with a
    header that renders apart from its nonce, not before the nonce has
    4301 digits. *)
Lemma search_within_bound (fuel : nat) (target : Z) (out : bytes) :
  forall (k : Z) (tr : Triad.t) (r : result Z) (tr2 : Triad.t),
    frame_renders tr = true ->
    0 <= k -> k + Z.of_nat fuel <= int_str_bound ->
    PoF.search fuel target out k tr = Some (r, tr2) ->
    exists n, r = Ok n.
Proof.
  induction fuel as [|fuel IH]; intros k tr r tr2 Hf Hk Hb H; [discriminate|].
  rewrite search_step, renders_set_nonce, Hf, andb_true_r in H.
  assert (Hrk : int_renders k = true) by (apply int_renders_iff; lia).
  rewrite Hrk in H.
  destruct (final_hash tr out k <? target).
  - injection H as <- _. now exists k.
  - apply IH in H; auto; try lia.
    now rewrite <- refresh_set_nonce, frame_renders_refresh.
Qed.

(** More fuel does not change a result. *)
Lemma search_fuel_mono (fuel : nat) (target : Z) (out : bytes) :
  forall (k : Z) (tr : Triad.t) (res : result Z * Triad.t),
    PoF.search fuel target out k tr = Some res ->
    PoF.search (S fuel) target out k tr = Some res.
Proof.
  induction fuel as [|fuel IH]; intros k tr res H; [discriminate|].
  rewrite search_step in H. rewrite search_step.
  destruct (renders (set_nonce k tr)); [|assumption].
  destruct (final_hash tr out k <? target); [assumption|].
  now apply IH.
Qed.

(** The search returns as soon as some nonce meets the target: with
    enough fuel it does not run out. *)
Lemma search_finds (target : Z) (out : bytes) (d : nat) :
  forall (k : Z) (tr : Triad.t),
    0 <= k ->
    renders (set_nonce (k + Z.of_nat d) tr) = true ->
    final_hash tr out (k + Z.of_nat d) < target ->
    exists n, PoF.search (S d) target out k tr
              = Some (Ok n, set_nonce n (refresh tr))
              /\ k <= n <= k + Z.of_nat d.
Proof.
  induction d as [|d IH]; intros k tr Hk Hr Hlt; rewrite search_step.
  - rewrite Z.add_0_r in Hlt, Hr. rewrite Hr.
    destruct (Z.ltb_spec (final_hash tr out k) target); [|lia].
    exists k. split; [reflexivity|lia].
  - pose proof Hr as Hr'. rewrite renders_set_nonce in Hr'.
    apply andb_prop in Hr' as [Hn Hf].
    rewrite renders_set_nonce, Hf, andb_true_r.
    rewrite (int_renders_between k (k + Z.of_nat (S d))) by (auto; lia).
    destruct (Z.ltb_spec (final_hash tr out k) target).
    + exists k. split; [reflexivity|lia].
    + destruct (IH (k + 1) (set_nonce k (refresh tr))) as (n & Hs & Hb).
      * lia.
      * rewrite set_nonce_set_nonce, <- refresh_set_nonce, renders_refresh.
        now replace (k + 1 + Z.of_nat d) with (k + Z.of_nat (S d)) by lia.
      * rewrite final_hash_set_nonce, final_hash_refresh.
        now replace (k + 1 + Z.of_nat d) with (k + Z.of_nat (S d)) by lia.
      * exists n. split; [|lia].
        rewrite Hs. now rewrite refresh_set_nonce, refresh_idem, set_nonce_set_nonce.
Qed.

Lemma solve_puzzle_returns (fuel : nat) (out : bytes) (tr tr2 : Triad.t) (n : Z) :
  PoF.solve_puzzle fuel out tr = Some (Ok n, tr2) ->
  0 <= n /\ tr2 = set_nonce n (refresh tr)
  /\ renders (set_nonce n tr) = true
  /\ exists target, PoF.pow_target (difficulty tr) = Ok target
                    /\ final_hash tr out n < target.
Proof.
  unfold PoF.solve_puzzle, str_of_int.
  destruct (int_renders (height tr)); [|discriminate].
  destruct (PoF.pow_target (difficulty tr)) as [target|e]; [|discriminate].
  intros H. apply search_returns in H as (Hk & -> & Hr & Hlt & _).
  repeat split; auto. now exists target.
Qed.

(** The round trip on a header whose nonce is 0 when the puzzle is
    created, as [Triad(...)] builds it: a nonce returned by
    [solve_puzzle] is accepted by [verify_solution]. *)
Lemma solve_then_verify (p : PoF.t) (tr tr1 tr2 : Triad.t) (fuel : nat)
    (out prf : bytes) (n : Z) :
  nonce tr = 0 ->
  PoF.create_puzzle p tr = (Ok (out, prf), tr1) ->
  PoF.solve_puzzle fuel out tr1 = Some (Ok n, tr2) ->
  PoF.verify_solution (PoF.vdf_difficulty p) out prf (set_nonce n tr2)
  = (Ok true, set_nonce n tr2).
Proof.
  intros Hzero Hcreate Hsolve.
  rewrite create_puzzle_eq in Hcreate.
  destruct (renders tr); [|discriminate].
  destruct (PoF.vdf_difficulty p <? 1); [discriminate|].
  cbv zeta in Hcreate. injection Hcreate as Hout Hprf Htr1.
  apply solve_puzzle_returns in Hsolve as (_ & -> & Hr & target & Htarget & Hlt).
  subst tr1 prf out.
  rewrite <- refresh_set_nonce, renders_refresh, renders_set_nonce in Hr.
  apply andb_prop in Hr as [Hn Hf].
  rewrite refresh_idem, set_nonce_set_nonce.
  rewrite verify_solution_eq.
  rewrite <- refresh_set_nonce, frame_renders_refresh.
  change (frame_renders (set_nonce n tr)) with (frame_renders tr). rewrite Hf.
  rewrite refresh_set_nonce, set_nonce_set_nonce, header_hash_of_set_nonce_refresh.
  rewrite <- Hzero at 1. rewrite set_nonce_same.
  unfold VDF.verify. rewrite !bytes_eqb_refl. cbn [negb].
  rewrite difficulty_set_nonce, difficulty_refresh in *. rewrite Htarget.
  rewrite nonce_set_nonce, Hn, final_hash_set_nonce.
  rewrite final_hash_refresh in *.
  match goal with
  | |- context [?h >=? target] => destruct (Z.geb_spec h target) as [Hge|_]; [lia|]
  end.
  now rewrite refresh_set_nonce, refresh_idem.
Qed.

(** C4.  Whenever [verify_solution] answers -- [True], [False] on a
    failed VDF check, [False] on a missed target -- the header's nonce
    afterwards is its nonce from before the call, and so it is whenever
    the header can be hashed at nonce 0.  When it cannot (an integer of the
    header or of a transaction has more than 4300 digits) the hash
    computation raises between the reset and the restoration, and the
    nonce is left at 0. *)
Theorem verify_solution_restores_nonce
    (tr : Triad.t) (vdf_difficulty : Z) (vdf_output vdf_proof : bytes) :
  let outcome := PoF.verify_solution vdf_difficulty vdf_output vdf_proof tr in
  (forall answer : bool,
     fst outcome = Ok answer ->
     nonce (snd outcome) = nonce tr /\ snd outcome = refresh tr)
  /\ (frame_renders tr = true ->
      nonce (snd outcome) = nonce tr /\ snd outcome = refresh tr)
  /\ (frame_renders tr = false ->
      fst outcome = Raise int_conversion_error
      /\ snd outcome = set_nonce 0 (refresh tr)
      /\ nonce (snd outcome) = 0).
Proof.
  cbv zeta. rewrite verify_solution_eq.
  destruct (frame_renders tr); cbn [fst snd].
  - split; [|split]; [| |discriminate].
    + intros _ _. split; [apply nonce_refresh|reflexivity].
    + intros _. split; [apply nonce_refresh|reflexivity].
  - split; [|split]; [discriminate|discriminate|].
    intros _. repeat split.
Qed.

End Puzzle.

(** C4, as stated, fails on the header [MoreSamples.oversized], whose
    height has 4301 digits and whose nonce is 7: the recomputation of the
    challenge raises the [ValueError] of [json.dumps], and the header is
    left with the nonce 0. *)
Lemma verify_solution_leaves_nonce_zero :
  Triad.nonce MoreSamples.oversized = 7
  /\ Triad.height MoreSamples.oversized = 10 ^ 4300
  /\ fst (PoF.verify_solution 2 [] [] MoreSamples.oversized)
     = Raise int_conversion_error
  /\ Triad.nonce (snd (PoF.verify_solution 2 [] [] MoreSamples.oversized)) = 0.
Proof.
  split; [reflexivity|]. split; [vm_compute; reflexivity|].
  split; vm_compute; reflexivity.
Qed.

(** ** The challenge and the round trip *)

(** On a header whose nonce is 0 the challenge is the hash at nonce 0. *)
Lemma get_puzzle_challenge_zero_nonce (p : PoF.t) (tr : Triad.t) :
  Triad.nonce tr = 0 ->
  fst (PoF.get_puzzle_challenge p tr)
  = if HeaderHash.renders tr
    then Ok (HeaderHash.header_hash_of (Triad.set_nonce 0 tr))
    else Raise int_conversion_error.
Proof.
  intros H. rewrite get_puzzle_challenge_eq. cbn [fst].
  rewrite <- H. now rewrite set_nonce_same.
Qed.

(** C3.  [get_puzzle_challenge] returns the hash of the bound header at
    the header's current nonce and leaves that nonce in place; when the
    nonce is 0, as in a header just built, this is the hash computed with
    the nonce fixed at 0.  (Where the header does not render, the
    [ValueError] of [json.dumps] takes the place of the hash.) *)
Theorem get_puzzle_challenge_current_nonce (p : PoF.t) (tr : Triad.t) :
  fst (PoF.get_puzzle_challenge p tr)
  = (if HeaderHash.renders tr
     then Ok (HeaderHash.header_hash_of (Triad.set_nonce (Triad.nonce tr) tr))
     else Raise int_conversion_error)
  /\ Triad.nonce (snd (PoF.get_puzzle_challenge p tr)) = Triad.nonce tr
  /\ (Triad.nonce tr = 0 ->
      fst (PoF.get_puzzle_challenge p tr)
      = if HeaderHash.renders tr
        then Ok (HeaderHash.header_hash_of (Triad.set_nonce 0 tr))
        else Raise int_conversion_error).
Proof.
  split; [|split].
  - rewrite get_puzzle_challenge_eq, set_nonce_same. reflexivity.
  - rewrite get_puzzle_challenge_eq. apply nonce_refresh.
  - apply get_puzzle_challenge_zero_nonce.
Qed.

(** C3, as stated, fails on the header [Samples.mined], whose nonce is 1:
    the challenge is the hash at nonce 1 (cae827e1...), not the hash at
    nonce 0 (668c73cf...). *)
Lemma get_puzzle_challenge_on_mined_header :
  Triad.nonce Samples.mined = 1
  /\ fst (PoF.get_puzzle_challenge (PoF.Build 2) Samples.mined)
     <> Ok (HeaderHash.header_hash_of (Triad.set_nonce 0 Samples.mined))
  /\ hex (HeaderHash.header_hash_of Samples.mined)
     = str_lit "cae827e142ce08c4240637ff3aa24a9c630113e78e143471589754cb9159157b"
  /\ hex (HeaderHash.header_hash_of (Triad.set_nonce 0 Samples.mined))
     = str_lit "668c73cf3d93054d2442f223e0d1fec77075c7cf950a94d72dda2b6d84138dfc".
Proof.
  split; [reflexivity|]. split; [|split; vm_compute; reflexivity].
  rewrite get_puzzle_challenge_eq. cbn [fst]. intros H.
  apply (f_equal (fun r => match r with Ok h => hex h | Raise _ => [] end)) in H.
  vm_compute in H. discriminate H.
Qed.



(** On that header the search does return: nonce 1 meets the target of
    difficulty 3, and the solution is accepted. *)
Example create_solve_verify_on_fresh_header :
  exists out prf tr1 tr2,
    PoF.create_puzzle (PoF.Build 2) Samples.fresh = (Ok (out, prf), tr1)
    /\ PoF.solve_puzzle 2 out tr1 = Some (Ok 1, tr2)
    /\ PoF.verify_solution 2 out prf (Triad.set_nonce 1 tr2)
       = (Ok true, Triad.set_nonce 1 tr2).
Proof.
  do 4 eexists. split; [vm_compute; reflexivity|].
  split; [vm_compute; reflexivity|].
  eapply (solve_then_verify (PoF.Build 2) Samples.fresh _ _ 2);
    [reflexivity | vm_compute; reflexivity | vm_compute; reflexivity].
Qed.


(** ** Adding transactions *)

Section AddTransaction.
Import Triad TriadMethods.

Variable ecdsa_verify : bytes -> bytes -> bytes -> result bool.

Local Opaque sha256_hash.

Let invalid_transaction : exn :=
  ValueError "Cannot add invalid transaction to Triad.".

Lemma KeyPair_verify_true (pk sig msg : bytes) :
  Transaction.KeyPair_verify ecdsa_verify pk sig msg = Ok true
  <-> ecdsa_verify pk sig msg = Ok true.
Proof.
  unfold Transaction.KeyPair_verify.
  destruct (ecdsa_verify pk sig msg) as [[|]|[m| |m]]; split; congruence.
Qed.

(** [KeyPair.verify] lets neither [ValueError] nor [BadSignatureError]
    through. *)
Lemma KeyPair_verify_raises (pk sig msg : bytes) (e : exn) :
  Transaction.KeyPair_verify ecdsa_verify pk sig msg = Raise e ->
  exists name, e = OtherError name.
Proof.
  unfold Transaction.KeyPair_verify.
  destruct (ecdsa_verify pk sig msg) as [b|[m| |m]]; try discriminate.
  intros [= <-]. now exists m.
Qed.

(** What [is_valid] raises is an exception of the library that
    [KeyPair.verify] does not catch, or the [ValueError] of [json.dumps]
    on a payload that does not render. *)
Lemma is_valid_raises (tx : Transaction.t) (e : exn) :
  Transaction.is_valid ecdsa_verify tx = Raise e ->
  (exists name, e = OtherError name) \/ e = int_conversion_error.
Proof.
  unfold Transaction.is_valid.
  destruct (str_eqb _ _); [discriminate|].
  destruct (negb _ || negb _); [discriminate|].
  destruct (Transaction.signature tx) as [sig|]; [|discriminate].
  destruct (Transaction.public_key tx) as [pk|]; [|discriminate].
  destruct (negb _); [discriminate|].
  destruct (Transaction.payload tx) as [message|e'] eqn:Ep.
  - intros H. left. now apply KeyPair_verify_raises in H.
  - intros [= <-]. right. now apply payload_raise_inv in Ep.
Qed.

(** A transaction is valid when it names COINBASE as its sender, or when
    its signature validates against its sender. *)
Lemma is_valid_true_iff (tx : Transaction.t) :
  Transaction.is_valid ecdsa_verify tx = Ok true
  <-> str_eqb (Transaction.from_address tx) (str_lit "COINBASE") = true
      \/ Reference.signature_validates ecdsa_verify tx = true.
Proof.
  unfold Transaction.is_valid, Reference.signature_validates.
  destruct (str_eqb (Transaction.from_address tx) (str_lit "COINBASE"));
    [split; auto|].
  destruct (Transaction.signature tx) as [[|s sig]|];
    destruct (Transaction.public_key tx) as [[|p pk]|]; cbn [truthy negb orb];
    try (split; [discriminate | intros [H|H]; discriminate]).
  destruct (str_eqb (Transaction.addr_from_pubkey (p :: pk)) _); cbn [negb andb].
  - destruct (Transaction.payload tx) as [message|e'].
    + rewrite KeyPair_verify_true.
      destruct (ecdsa_verify (p :: pk) (s :: sig) message) as [[|]|e];
        (split; [intros H; try discriminate H; right; reflexivity
                |intros [H|H]; try discriminate H; reflexivity]).
    + split; [discriminate | intros [H|H]; discriminate].
  - split; [discriminate | intros [H|H]; discriminate].
Qed.

Lemma add_transaction_eq (tx : Transaction.t) (tr : Triad.t) :
  add_transaction ecdsa_verify tx tr =
  match Transaction.is_valid ecdsa_verify tx with
  | Ok true => (Ok tt, set_transactions (transactions tr ++ [tx]) tr)
  | Ok false => (Raise invalid_transaction, tr)
  | Raise e => (Raise e, tr)
  end.
Proof.
  unfold add_transaction, bind, lift, get, modify, raise.
  destruct (Transaction.is_valid ecdsa_verify tx) as [[|]|e]; reflexivity.
Qed.

(** C6.  [add_transaction(tx)] raises its [ValueError] exactly when
    [tx.is_valid()] is [False], and succeeds exactly when it is [True];
    [is_valid] is [True] for every transaction whose sender is COINBASE,
    whatever its signature, and otherwise exactly when the signature
    validates against the sender.  A successful call appends [tx] at the
    end of the transaction list and changes nothing else; any other call
    leaves the header as it was. *)
Theorem add_transaction_spec (tx : Transaction.t) (tr : Triad.t) :
  let outcome := add_transaction ecdsa_verify tx tr in
  (fst outcome = Raise (ValueError "Cannot add invalid transaction to Triad.")
     <-> Transaction.is_valid ecdsa_verify tx = Ok false)
  /\ (fst outcome = Ok tt <-> Transaction.is_valid ecdsa_verify tx = Ok true)
  /\ (Transaction.is_valid ecdsa_verify tx = Ok true
        <-> str_eqb (Transaction.from_address tx) (str_lit "COINBASE") = true
            \/ Reference.signature_validates ecdsa_verify tx = true)
  /\ (fst outcome = Ok tt ->
        snd outcome = set_transactions (transactions tr ++ [tx]) tr)
  /\ (fst outcome <> Ok tt -> snd outcome = tr).
Proof.
  cbv zeta. rewrite add_transaction_eq.
  pose proof (is_valid_raises tx) as Hraise.
  split; [|split; [|split; [apply is_valid_true_iff|split]]];
    destruct (Transaction.is_valid ecdsa_verify tx) as [[|]|e]; cbn [fst snd];
    try (split; congruence); try congruence; try reflexivity.
  - split; reflexivity.
  - split; [|discriminate].
    intros [= ->]. destruct (Hraise _ eq_refl) as [[name Hname]|Hname];
      discriminate.
Qed.

(** Valid transactions added one after the other end up at the end of
    the list in the order of the calls. *)
Lemma add_all_valid (txs : list Transaction.t) :
  Forall (fun tx => Transaction.is_valid ecdsa_verify tx = Ok true) txs ->
  forall tr, Reference.add_all ecdsa_verify txs tr
             = (Ok tt, set_transactions (transactions tr ++ txs) tr).
Proof.
  induction 1 as [|tx txs Htx _ IH]; intros tr.
  - cbn. rewrite app_nil_r. now destruct tr.
  - cbn [Reference.add_all]. unfold bind at 1.
    rewrite add_transaction_eq, Htx, IH. cbn. now rewrite <- app_assoc.
Qed.

End AddTransaction.

(** C6, as stated, fails: a COINBASE transaction that carries no signature
    is added without error, although no signature validates. *)
Lemma add_transaction_accepts_unsigned_coinbase :
  ~ (forall (ecdsa_verify : bytes -> bytes -> bytes -> result bool)
            (tx : Transaction.t) (tr : Triad.t),
        (exists e, fst (TriadMethods.add_transaction ecdsa_verify tx tr) = Raise e)
        <-> Reference.signature_validates ecdsa_verify tx = false).
Proof.
  intros H.
  destruct (H Samples.reject_all Samples.reward Samples.fresh) as [_ Hfail].
  destruct Hfail as [e He]; [reflexivity|].
  rewrite add_transaction_eq in He. discriminate He.
Qed.

(** ** Committee signatures: aggregation *)

Section Aggregation.
Import ProductionBLS.

Variable bls_Aggregate : list bytes -> result bytes.

Lemma check_lengths_ok (signatures : list bytes) :
  Forall (fun sig => length sig = 96%nat) signatures ->
  check_lengths signatures = Ok tt.
Proof.
  induction 1 as [|sig rest Hsig _ IH]; [reflexivity|].
  cbn [check_lengths]. rewrite Hsig, Nat.eqb_refl. exact IH.
Qed.

Lemma check_lengths_mismatch (signatures : list bytes) :
  Exists (fun sig => length sig <> 96%nat) signatures ->
  exists e, check_lengths signatures = Raise e /\ AggregationLengthMismatch e.
Proof.
  induction signatures as [|sig rest IH]; intros Hex; [inversion Hex|].
  cbn [check_lengths].
  destruct (Nat.eqb_spec (length sig) 96) as [Heq|Hne]; cbn [negb].
  - apply IH. inversion Hex; subst; [contradiction|assumption].
  - eexists; split; [reflexivity|]. now exists (length sig).
Qed.

Lemma check_lengths_ok_inv (signatures : list bytes) :
  check_lengths signatures = Ok tt ->
  Forall (fun sig => length sig = 96%nat) signatures.
Proof.
  induction signatures as [|sig rest IH]; intros H; [constructor|].
  cbn [check_lengths] in H.
  destruct (Nat.eqb_spec (length sig) 96) as [Heq|Hne]; cbn [negb] in H;
    [|discriminate].
  constructor; auto.
Qed.

Lemma aggregate_signatures_checked (signatures : list bytes) :
  signatures <> [] ->
  Forall (fun sig => length sig = 96%nat) signatures ->
  aggregate_signatures bls_Aggregate signatures = bls_Aggregate signatures.
Proof.
  intros Hne Hall. destruct signatures as [|sig rest]; [contradiction|].
  unfold aggregate_signatures. now rewrite (check_lengths_ok _ Hall).
Qed.

(** C7.  [aggregate_signatures] raises its "empty list" [ValueError]
    (InvalidParameter) on the empty sequence and its "invalid length"
    [ValueError] (AggregationLengthMismatch) as soon as some element is
    not 96 bytes long; on a non-empty sequence of 96-byte strings it
    makes no further check and its outcome is that of the library's
    [Aggregate], result or exception. *)
Theorem aggregate_signatures_errors (signatures : list bytes) :
  (signatures = [] ->
     exists e, aggregate_signatures bls_Aggregate signatures = Raise e
               /\ InvalidParameter e)
  /\ (signatures <> [] ->
      Exists (fun sig => length sig <> 96%nat) signatures ->
      exists e, aggregate_signatures bls_Aggregate signatures = Raise e
                /\ AggregationLengthMismatch e)
  /\ (signatures <> [] ->
      Forall (fun sig => length sig = 96%nat) signatures ->
      aggregate_signatures bls_Aggregate signatures = bls_Aggregate signatures).
Proof.
  split; [|split].
  - intros ->. eexists; split; reflexivity.
  - intros Hne Hex. destruct signatures as [|sig rest]; [contradiction|].
    unfold aggregate_signatures.
    destruct (check_lengths_mismatch _ Hex) as (e & -> & He).
    now exists e.
  - apply aggregate_signatures_checked.
Qed.

End Aggregation.

(** C7, as stated, fails: nothing in [aggregate_signatures] keeps the
    library from raising on a 96-byte string.  Here the library rejects,
    as point decompression does, an encoding whose compression bit is
    clear, and the input is one signature of 96 zero bytes. *)
Lemma aggregate_signatures_may_raise :
  ~ (forall (bls_Aggregate : list bytes -> result bytes) (signatures : list bytes),
        signatures <> [] ->
        Forall (fun sig => length sig = 96%nat) signatures ->
        exists out,
          ProductionBLS.aggregate_signatures bls_Aggregate signatures = Ok out).
Proof.
  intros H.
  destruct (H (ProductionBLS.Aggregate Z 0 Z.add Samples.flagged_decode Samples.int_encode)
              [repeat x00 96]) as [out Hout].
  - discriminate.
  - constructor; [reflexivity|constructor].
  - vm_compute in Hout. discriminate Hout.
Qed.

Section OrderIndependence.
Import ProductionBLS.

Variable G2 : Type.
Variable Z2 : G2.
Variable add : G2 -> G2 -> G2.
Variable signature_to_G2 : bytes -> result G2.
Variable G2_to_signature : G2 -> bytes.

Hypothesis add_comm : forall p q, add p q = add q p.
Hypothesis add_assoc : forall p q r, add p (add q r) = add (add p q) r.

Let Aggregate := ProductionBLS.Aggregate G2 Z2 add signature_to_G2 G2_to_signature.
Let decode_all := ProductionBLS.decode_all G2 signature_to_G2.

Lemma add_swap (a p q : G2) : add (add a p) q = add (add a q) p.
Proof. now rewrite <- !add_assoc, (add_comm p q). Qed.

Lemma fold_add_perm (ps qs : list G2) :
  Permutation ps qs -> forall a, fold_left add ps a = fold_left add qs a.
Proof.
  induction 1 as [|p ps qs _ IH|p q ps|ps qs rs _ IH1 _ IH2]; intros a; cbn.
  - reflexivity.
  - apply IH.
  - now rewrite add_swap.
  - now rewrite IH1.
Qed.

Lemma decode_all_perm (l l' : list bytes) :
  Permutation l l' ->
  forall ps, decode_all l = Ok ps ->
             exists qs, decode_all l' = Ok qs /\ Permutation ps qs.
Proof.
  unfold decode_all.
  induction 1 as [|x l l' _ IH|x y l|l l' l'' _ IH1 _ IH2]; intros ps Hps.
  - exists ps. now split.
  - cbn in *. destruct (signature_to_G2 x) as [p|e]; [|discriminate].
    destruct (ProductionBLS.decode_all G2 signature_to_G2 l) as [ps'|e];
      [|discriminate].
    injection Hps as <-. destruct (IH ps' eq_refl) as (qs & -> & Hperm).
    exists (p :: qs). split; [reflexivity|now constructor].
  - cbn in *. destruct (signature_to_G2 y) as [q|e]; [|discriminate].
    destruct (signature_to_G2 x) as [p|e]; [|discriminate].
    destruct (ProductionBLS.decode_all G2 signature_to_G2 l) as [ps'|e];
      [|discriminate].
    injection Hps as <-. exists (p :: q :: ps'). split; [reflexivity|constructor].
  - destruct (IH1 ps Hps) as (qs & Hqs & Hperm1).
    destruct (IH2 qs Hqs) as (rs & Hrs & Hperm2).
    exists rs. split; [assumption|]. now transitivity qs.
Qed.

Lemma Aggregate_perm (l l' : list bytes) (out : bytes) :
  Permutation l l' -> Aggregate l = Ok out -> Aggregate l' = Ok out.
Proof.
  intros Hperm. unfold Aggregate, ProductionBLS.Aggregate.
  fold decode_all.
  destruct (decode_all l) as [ps|e] eqn:Hps; [|discriminate].
  destruct (decode_all_perm _ _ Hperm ps Hps) as (qs & -> & Hpq).
  intros [= <-]. now rewrite (fold_add_perm _ _ Hpq).
Qed.

Lemma decode_all_total (l : list bytes) :
  Forall (fun sig => exists p, signature_to_G2 sig = Ok p) l ->
  exists ps, decode_all l = Ok ps.
Proof.
  unfold decode_all.
  induction 1 as [|sig rest [p Hp] _ [ps IH]]; [now exists []|].
  exists (p :: ps). cbn. now rewrite Hp, IH.
Qed.

(** C8.  Over the point-addition aggregate, [aggregate_signatures]
    returns on a permutation of a non-empty list of 96-byte signatures
    exactly the bytes it returns on the list; and it does return, on
    both, when every signature decodes to a point. *)
Theorem aggregate_signatures_order_independent
    (signatures permuted : list bytes) :
  signatures <> [] ->
  Forall (fun sig => length sig = 96%nat) signatures ->
  Permutation signatures permuted ->
  (forall out, aggregate_signatures Aggregate signatures = Ok out
               <-> aggregate_signatures Aggregate permuted = Ok out)
  /\ (Forall (fun sig => exists p, signature_to_G2 sig = Ok p) signatures ->
      exists out, aggregate_signatures Aggregate signatures = Ok out
                  /\ aggregate_signatures Aggregate permuted = Ok out).
Proof.
  intros Hne Hall Hperm.
  assert (Hne' : permuted <> []).
  { intros ->. apply Permutation_sym, Permutation_nil in Hperm. contradiction. }
  assert (Hall' : Forall (fun sig => length sig = 96%nat) permuted)
    by (eapply Permutation_Forall; eassumption).
  rewrite !aggregate_signatures_checked by assumption.
  split.
  - intros out. split; apply Aggregate_perm; [assumption|now symmetry].
  - intros Hdec. destruct (decode_all_total _ Hdec) as [ps Hps].
    exists (G2_to_signature (fold_left add ps Z2)).
    assert (Hagg : Aggregate signatures = Ok (G2_to_signature (fold_left add ps Z2))).
    { unfold Aggregate, ProductionBLS.Aggregate. fold decode_all. now rewrite Hps. }
    split; [assumption|]. now apply (Aggregate_perm signatures).
Qed.

End OrderIndependence.

(** The hypotheses of C8 on two signatures, over the integers under
    addition. *)
Lemma aggregate_signatures_order_independent_witness :
  let Aggregate := ProductionBLS.Aggregate Z 0 Z.add Samples.int_decode Samples.int_encode in
  let signatures := [Samples.sig_a; Samples.sig_b] in
  let permuted := [Samples.sig_b; Samples.sig_a] in
  (forall out, ProductionBLS.aggregate_signatures Aggregate signatures = Ok out
               <-> ProductionBLS.aggregate_signatures Aggregate permuted = Ok out)
  /\ (Forall (fun sig => exists p, Samples.int_decode sig = Ok p) signatures ->
      exists out, ProductionBLS.aggregate_signatures Aggregate signatures = Ok out
                  /\ ProductionBLS.aggregate_signatures Aggregate permuted = Ok out).
Proof.
  apply (aggregate_signatures_order_independent Z 0 Z.add
           Samples.int_decode Samples.int_encode Z.add_comm Z.add_assoc
           [Samples.sig_a; Samples.sig_b] [Samples.sig_b; Samples.sig_a]).
  - discriminate.
  - repeat constructor.
  - apply perm_swap.
Defined.

Example aggregate_two_signatures :
  ProductionBLS.aggregate_signatures
    (ProductionBLS.Aggregate Z 0 Z.add Samples.int_decode Samples.int_encode)
    [Samples.sig_a; Samples.sig_b]
  = Ok (repeat x03 96).
Proof. vm_compute. reflexivity. Qed.

(** ** Committee signatures: batch verification *)

Section BatchVerify.
Import ProductionBLS.

Variable bls_Verify : bytes -> bytes -> bytes -> result bool.

Let verify := verify_signature bls_Verify.

Lemma count_failing_cons (sig : BLSSignature) (rest : list BLSSignature) :
  Reference.count_failing verify (sig :: rest) =
  (if verify sig then 0 else 1) + Reference.count_failing verify rest.
Proof.
  unfold Reference.count_failing. cbn [filter].
  destruct (verify sig); cbn [negb length]; lia.
Qed.

Lemma count_failing_bounds (signatures : list BLSSignature) :
  0 <= Reference.count_failing verify signatures <= Z.of_nat (length signatures).
Proof.
  unfold Reference.count_failing.
  pose proof (filter_length_le (fun sig => negb (verify sig)) signatures). lia.
Qed.

(** The loop, started at index [start] on any intermediate tally. *)
Lemma batch_loop (signatures : list BLSSignature) :
  forall (start : nat) (acc : BatchResults),
    fold_left (batch_step bls_Verify)
              (combine (map Z.of_nat (seq start (length signatures))) signatures) acc
    = MkResults
        (total_signatures acc)
        (valid_signatures acc
         + (Z.of_nat (length signatures) - Reference.count_failing verify signatures))
        (invalid_signatures acc + Reference.count_failing verify signatures)
        (invalid_indices acc ++ Reference.failing_positions verify start signatures).
Proof.
  induction signatures as [|sig rest IH]; intros start acc.
  - cbn. rewrite app_nil_r, !Z.add_0_r. now destruct acc.
  - cbn [length seq map combine fold_left]. rewrite IH.
    rewrite count_failing_cons. unfold batch_step. cbn [fst snd].
    cbn [Reference.failing_positions]. fold verify.
    destruct (verify sig); cbn [total_signatures valid_signatures
                                 invalid_signatures invalid_indices];
      f_equal; try lia.
    now rewrite <- app_assoc.
Qed.

Lemma failing_positions_in (signatures : list BLSSignature) :
  forall (start : nat) (i : Z),
    In i (Reference.failing_positions verify start signatures) <->
    exists j sig, i = Z.of_nat (start + j)
                  /\ nth_error signatures j = Some sig /\ verify sig = false.
Proof.
  induction signatures as [|sig rest IH]; intros start i; cbn [Reference.failing_positions].
  - split; [intros []|]. intros (j & s & _ & H & _). now destruct j.
  - destruct (verify sig) eqn:Hv; cbn [In]; rewrite ?IH; split.
    + intros (j & s & -> & Hj & Hs). exists (S j), s.
      repeat split; auto; f_equal; lia.
    + intros ([|j] & s & -> & Hj & Hs); cbn in Hj.
      * injection Hj as <-. congruence.
      * exists j, s. repeat split; auto; f_equal; lia.
    + intros [<-|(j & s & -> & Hj & Hs)].
      * exists 0%nat, sig. repeat split; auto; f_equal; lia.
      * exists (S j), s. repeat split; auto; f_equal; lia.
    + intros ([|j] & s & -> & Hj & Hs); cbn in Hj.
      * left. f_equal; lia.
      * right. exists j, s. repeat split; auto; f_equal; lia.
Qed.

Lemma failing_positions_sorted (signatures : list BLSSignature) :
  forall start : nat,
    StronglySorted Z.lt (Reference.failing_positions verify start signatures).
Proof.
  induction signatures as [|sig rest IH]; intros start; cbn [Reference.failing_positions].
  - constructor.
  - destruct (verify sig); [apply IH|].
    constructor; [apply IH|].
    apply Forall_forall. intros i Hi.
    apply failing_positions_in in Hi as (j & s & -> & _). lia.
Qed.

Lemma failing_positions_length (signatures : list BLSSignature) :
  forall start : nat,
    Z.of_nat (length (Reference.failing_positions verify start signatures))
    = Reference.count_failing verify signatures.
Proof.
  induction signatures as [|sig rest IH]; intros start; [reflexivity|].
  rewrite count_failing_cons. cbn [Reference.failing_positions].
  destruct (verify sig); cbn [length]; rewrite <- (IH (S start)); lia.
Qed.

(** C9.  For a list of [N] signatures of which [k] fail individual
    verification, [batch_verify] reports [N] signatures in total,
    [N - k] valid and [k] invalid ones, and as invalid indices the
    positions of exactly the failing signatures, in ascending order. *)
Theorem batch_verify_tally (signatures : list BLSSignature) :
  let N := Z.of_nat (length signatures) in
  let k := Reference.count_failing (verify_signature bls_Verify) signatures in
  let results := batch_verify bls_Verify signatures in
  total_signatures results = N
  /\ valid_signatures results = N - k
  /\ invalid_signatures results = k
  /\ Z.of_nat (length (invalid_indices results)) = k
  /\ StronglySorted Z.lt (invalid_indices results)
  /\ (forall i, In i (invalid_indices results) <->
                0 <= i /\ exists sig, nth_error signatures (Z.to_nat i) = Some sig
                                      /\ verify_signature bls_Verify sig = false).
Proof.
  cbv zeta. unfold batch_verify, enumerate. rewrite batch_loop.
  cbn [total_signatures valid_signatures invalid_signatures invalid_indices app].
  fold verify.
  repeat split; try lia.
  - apply failing_positions_length.
  - apply failing_positions_sorted.
  - apply failing_positions_in in H as (j & s & -> & _). lia.
  - apply failing_positions_in in H as (j & s & -> & Hj & Hs).
    exists s. now rewrite Nat.add_0_l, Nat2Z.id.
  - intros (Hi & s & Hj & Hs). apply failing_positions_in.
    exists (Z.to_nat i), s. repeat split; auto. cbn. lia.
Qed.

End BatchVerify.

Example batch_verify_sample :
  ProductionBLS.batch_verify Samples.echo_verify
    [Samples.good; Samples.bad; Samples.good; Samples.bad; Samples.bad]
  = ProductionBLS.MkResults 5 2 3 [1; 3; 4].
Proof. reflexivity. Qed.

(** * Further properties of the code *)

(** ** Digest sizes *)

Lemma int_from_bytes_big_bounds (b : bytes) :
  0 <= int_from_bytes_big b < 2 ^ (8 * Z.of_nat (length b)).
Proof.
  unfold int_from_bytes_big.
  assert (H : forall (l : bytes) (acc : Z) (n : nat),
             0 <= acc < 2 ^ (8 * Z.of_nat n) ->
             0 <= fold_left (fun a x => a * 256 + Z_of_byte x) l acc
               < 2 ^ (8 * Z.of_nat (n + length l))).
  { induction l as [|x l IH]; intros acc n Hacc; cbn [fold_left length].
    - now rewrite Nat.add_0_r.
    - replace (n + S (length l))%nat with (S n + length l)%nat by lia.
      apply IH.
      assert (Hx : 0 <= Z_of_byte x < 256).
      { unfold Z_of_byte. pose proof (Byte.to_N_bounded x). lia. }
      replace (8 * Z.of_nat (S n)) with (8 * Z.of_nat n + 8) by lia.
      rewrite Z.pow_add_r by lia. change (2 ^ 8) with 256. nia. }
  specialize (H b 0 0%nat). cbn in H. apply H. lia.
Qed.

Section Sizes.

Local Opaque sha256_hash.

(** The Merkle root of any list, the empty one included, is 32 bytes
    long, whatever the size of the items. *)
Lemma merkle_root_length (items : list bytes) :
  length (merkle_root items) = 32%nat.
Proof.
  funelim (merkle_root items); try apply sha256_hash_length.
  assumption.
Qed.

End Sizes.

(** ** Verifiable delay: what [verify] accepts *)

Lemma vdf_verify_true (c : bytes) (d : Z) (output proof : bytes) :
  VDF.verify c d output proof = true
  <-> proof = output /\ output = Nat.iter (Z.to_nat d) sha256_hash c.
Proof.
  unfold VDF.verify, VDF.range_count. rewrite hash_loop_iter.
  destruct (bytes_eqb output proof) eqn:E; cbn [negb].
  - apply bytes_eqb_eq in E. rewrite bytes_eqb_eq. split.
    + intros H. now split.
    + now intros [_ H].
  - split; [discriminate|]. intros [-> _].
    now rewrite bytes_eqb_refl in E.
Qed.

(** [VDF.verify] accepts exactly the pairs whose proof equals the output
    and whose output is the hash chain of the challenge,
    [max(difficulty, 0)] links long.  Unlike the constructor it does not
    refuse a difficulty below 1: there the only accepted output is the
    challenge itself. *)
Theorem vdf_verify_iff (c : bytes) (d : Z) (output proof : bytes) :
  (VDF.verify c d output proof = true
   <-> proof = output /\ output = Nat.iter (Z.to_nat d) sha256_hash c)
  /\ (d <= 0 ->
      (VDF.verify c d output proof = true <-> output = c /\ proof = c)).
Proof.
  pose proof (vdf_verify_true c d output proof) as Hiff.
  split; [exact Hiff|].
  intros Hd. rewrite Hiff.
  replace (Z.to_nat d) with 0%nat by lia. cbn [Nat.iter].
  split; [intros [-> ->]; now split | intros [-> ->]; now split].
Qed.

(** ** The nonce search *)

Section Search.
Import Triad TriadMethods HeaderHash.

Local Opaque sha256_hash merkle_root int_renders.

Lemma final_hash_bounds (tr : Triad.t) (out : bytes) (n : Z) :
  0 <= final_hash tr out n < 2 ^ 256.
Proof.
  unfold final_hash.
  pose proof (int_from_bytes_big_bounds
                (sha256_hash (header_hash_of (set_nonce n tr) ++ out))) as H.
  rewrite sha256_hash_length in H. exact H.
Qed.

Lemma pow_target_nonneg (d : Z) :
  0 <= d -> PoF.pow_target d = Ok ((2 ^ 256 - 1) / 2 ^ d).
Proof.
  intros Hd. unfold PoF.pow_target.
  destruct (Z.ltb_spec d 0); [lia|]. now rewrite Z.shiftr_div_pow2.
Qed.

Lemma pow_target_saturated (d : Z) : 256 <= d -> PoF.pow_target d = Ok 0.
Proof.
  intros Hd. rewrite pow_target_nonneg by lia. f_equal.
  apply Z.div_small. split; [lia|].
  assert (2 ^ 256 <= 2 ^ d) by (apply Z.pow_le_mono_r; lia). lia.
Qed.

Lemma search_zero_target (fuel : nat) (out : bytes) :
  forall (k : Z) (tr : Triad.t) (n : Z) (tr2 : Triad.t),
    PoF.search fuel 0 out k tr <> Some (Ok n, tr2).
Proof.
  intros k tr n tr2 H. apply search_returns in H as (_ & _ & _ & Hlt & _).
  pose proof (final_hash_bounds tr out n). lia.
Qed.

Lemma search_zero_target_runs (fuel : nat) (out : bytes) (k : Z) (tr : Triad.t) :
  frame_renders tr = true ->
  0 <= k -> k + Z.of_nat fuel <= int_str_bound ->
  PoF.search fuel 0 out k tr = None.
Proof.
  intros Hf Hk Hb.
  destruct (PoF.search fuel 0 out k tr) as [[r tr2]|] eqn:E; [|reflexivity].
  destruct (search_within_bound _ _ _ _ _ _ _ Hf Hk Hb E) as [n ->].
  now apply search_zero_target in E.
Qed.

(** A nonce that [solve_puzzle] returns is the least non-negative nonce
    whose final hash is below the target [(2**256 - 1) >> difficulty];
    the header is left with that nonce and a recomputed Merkle root, and
    nothing else changed. *)
Theorem solve_puzzle_least (fuel : nat) (out : bytes) (tr tr2 : Triad.t) (n : Z) :
  PoF.solve_puzzle fuel out tr = Some (Ok n, tr2) ->
  0 <= n
  /\ tr2 = set_nonce n (refresh tr)
  /\ final_hash tr out n < Z.shiftr (2 ^ 256 - 1) (difficulty tr)
  /\ forall m, 0 <= m < n ->
       Z.shiftr (2 ^ 256 - 1) (difficulty tr) <= final_hash tr out m.
Proof.
  unfold PoF.solve_puzzle, PoF.pow_target, str_of_int.
  destruct (int_renders (height tr)); [|discriminate].
  destruct (difficulty tr <? 0); [discriminate|].
  intros H. apply search_returns in H as (Hk & -> & _ & Hlt & Hmin).
  repeat split; auto.
Qed.

(** [solve_puzzle] does return when some nonce meets the target: within
    [n + 1] turns of its loop if nonce [n] does, on a header that renders
    with that nonce. *)
Theorem solve_puzzle_finds (out : bytes) (tr : Triad.t) (n : Z) :
  0 <= difficulty tr ->
  0 <= n ->
  renders (set_nonce n tr) = true ->
  final_hash tr out n < Z.shiftr (2 ^ 256 - 1) (difficulty tr) ->
  exists n', PoF.solve_puzzle (S (Z.to_nat n)) out tr
             = Some (Ok n', set_nonce n' (refresh tr))
             /\ 0 <= n' <= n.
Proof.
  intros Hd Hn Hr Hlt. unfold PoF.solve_puzzle, PoF.pow_target, str_of_int.
  pose proof Hr as Hr'. rewrite renders_set_nonce in Hr'.
  apply andb_prop in Hr' as [_ Hf]. unfold frame_renders in Hf.
  destruct (int_renders (height tr)); [|discriminate Hf].
  destruct (Z.ltb_spec (difficulty tr) 0); [lia|].
  destruct (search_finds (Z.shiftr (2 ^ 256 - 1) (difficulty tr)) out
                         (Z.to_nat n) 0 tr) as (n' & Hs & Hb).
  - lia.
  - now rewrite Z2Nat.id, Z.add_0_l.
  - now rewrite Z2Nat.id, Z.add_0_l.
  - exists n'. split; [exact Hs|]. lia.
Qed.

(** With a difficulty of 256 or more the target is 0: [solve_puzzle]
    returns no nonce however long it runs, and [verify_solution] never
    answers [True].  On a header that renders apart from its nonce the
    search is still running after any number of turns up to [10 ** 4300],
    where the nonce itself stops rendering; and on a header that renders
    [verify_solution] answers [False] whatever the VDF difficulty, output
    and proof. *)
Theorem difficulty_saturated (tr : Triad.t) (fuel : nat)
    (vdf_difficulty : Z) (out prf : bytes) :
  256 <= difficulty tr ->
  (forall n tr2, PoF.solve_puzzle fuel out tr <> Some (Ok n, tr2))
  /\ fst (PoF.verify_solution vdf_difficulty out prf tr) <> Ok true
  /\ (frame_renders tr = true -> Z.of_nat fuel <= int_str_bound ->
      PoF.solve_puzzle fuel out tr = None)
  /\ (renders tr = true ->
      fst (PoF.verify_solution vdf_difficulty out prf tr) = Ok false).
Proof.
  intros Hd.
  assert (Hverify : frame_renders tr = true ->
            fst (PoF.verify_solution vdf_difficulty out prf tr)
            = if negb (VDF.verify (header_hash_of (set_nonce 0 tr))
                                  vdf_difficulty out prf)
              then Ok false
              else if int_renders (nonce tr) then Ok false
                   else Raise int_conversion_error).
  { intros Hf. rewrite verify_solution_eq, Hf, pow_target_saturated by assumption.
    cbn [fst]. destruct (negb _); [reflexivity|].
    destruct (int_renders (nonce tr)); [|reflexivity].
    pose proof (final_hash_bounds tr out (nonce tr)).
    destruct (Z.geb_spec (final_hash tr out (nonce tr)) 0); [reflexivity|lia]. }
  split; [|split; [|split]].
  - intros n tr2 H. unfold PoF.solve_puzzle, str_of_int in H.
    destruct (int_renders (height tr)); [|discriminate H].
    rewrite pow_target_saturated in H by assumption.
    now apply search_zero_target in H.
  - destruct (frame_renders tr) eqn:Hf.
    + rewrite (Hverify eq_refl).
      destruct (negb _); [discriminate|].
      destruct (int_renders (nonce tr)); discriminate.
    + rewrite verify_solution_eq, Hf. discriminate.
  - intros Hf Hb. pose proof Hf as Hf'. unfold frame_renders in Hf'.
    unfold PoF.solve_puzzle, str_of_int.
    destruct (int_renders (height tr)); [|discriminate Hf'].
    rewrite pow_target_saturated by assumption.
    now apply search_zero_target_runs.
  - intros Hr. unfold renders in Hr. apply andb_prop in Hr as [Hn Hf].
    rewrite (Hverify Hf), Hn. now destruct (negb _).
Qed.

(** With a negative difficulty [solve_puzzle] raises before it touches the
    header: the [ValueError] of the shift, or, on a height of more than
    4300 digits, that of the message it prints first.  [verify_solution]
    raises the [ValueError] of [json.dumps] where the header cannot be
    hashed at nonce 0; otherwise it raises that of the shift once the VDF
    check has passed, and answers [False] when that check fails. *)
Theorem difficulty_negative (tr : Triad.t) (fuel : nat)
    (vdf_difficulty : Z) (out prf : bytes) :
  difficulty tr < 0 ->
  PoF.solve_puzzle fuel out tr
  = Some (Raise (if int_renders (height tr)
                 then ValueError "negative shift count"
                 else int_conversion_error), tr)
  /\ fst (PoF.verify_solution vdf_difficulty out prf tr)
     = if frame_renders tr then
         if VDF.verify (header_hash_of (set_nonce 0 tr)) vdf_difficulty out prf
         then Raise (ValueError "negative shift count")
         else Ok false
       else Raise int_conversion_error.
Proof.
  intros Hd.
  assert (Ht : PoF.pow_target (difficulty tr) = Raise (ValueError "negative shift count")).
  { unfold PoF.pow_target. destruct (Z.ltb_spec (difficulty tr) 0); [reflexivity|lia]. }
  split.
  - unfold PoF.solve_puzzle, str_of_int.
    destruct (int_renders (height tr)); [|reflexivity].
    now rewrite Ht.
  - rewrite verify_solution_eq, Ht.
    destruct (frame_renders tr); cbn [fst]; [|reflexivity].
    destruct (VDF.verify _ _ _ _); reflexivity.
Qed.

(** For a non-negative difficulty [verify_solution] answers [True]
    exactly when the header renders, the VDF output is the hash chain of
    the header hash at nonce 0 (with proof equal to output) and the final
    hash at the header's own nonce is below the target.  On a header that
    renders it raises nothing; what it raises on another is the
    [ValueError] of [json.dumps]. *)
Theorem verify_solution_iff (tr : Triad.t) (vdf_difficulty : Z) (out prf : bytes) :
  0 <= difficulty tr ->
  (fst (PoF.verify_solution vdf_difficulty out prf tr) = Ok true
   <-> renders tr = true
       /\ prf = out
       /\ out = Nat.iter (Z.to_nat vdf_difficulty) sha256_hash
                         (header_hash_of (set_nonce 0 tr))
       /\ final_hash tr out (nonce tr) < (2 ^ 256 - 1) / 2 ^ difficulty tr)
  /\ (renders tr = true ->
      fst (PoF.verify_solution vdf_difficulty out prf tr) = Ok true
      \/ fst (PoF.verify_solution vdf_difficulty out prf tr) = Ok false)
  /\ (forall e, fst (PoF.verify_solution vdf_difficulty out prf tr) = Raise e ->
        e = int_conversion_error /\ renders tr = false).
Proof.
  intros Hd. rewrite verify_solution_eq, pow_target_nonneg by assumption.
  unfold renders.
  destruct (frame_renders tr); cbn [fst];
    [|rewrite andb_false_r; split; [|split];
      [split; [discriminate|intros [H _]; discriminate H]
      |discriminate
      |intros e [= <-]; now split]].
  rewrite andb_true_r.
  pose proof (vdf_verify_true (header_hash_of (set_nonce 0 tr))
                              vdf_difficulty out prf) as Hv.
  destruct (VDF.verify _ vdf_difficulty out prf); cbn [negb].
  - destruct (int_renders (nonce tr)).
    + destruct (Z.geb_spec (final_hash tr out (nonce tr))
                           ((2 ^ 256 - 1) / 2 ^ difficulty tr)) as [Hge|Hlt].
      * split; [|split]; [|now right|discriminate].
        split; [discriminate|]. intros (_ & _ & _ & H). lia.
      * split; [|split]; [|now left|discriminate].
        split; [|reflexivity].
        intros _. destruct (proj1 Hv eq_refl) as [H1 H2]. now repeat split.
    + split; [|split]; [|discriminate|intros e [= <-]; now split].
      split; [discriminate|]. intros [H _]. discriminate H.
  - split; [|split]; [|now right|discriminate].
    split; [discriminate|].
    intros (_ & H1 & H2 & _). discriminate (proj2 Hv (conj H1 H2)).
Qed.

End Search.

(** The search on [Samples.fresh] (difficulty 3) with the output
    [b"vdf"] returns the nonce 5. *)
Lemma solve_puzzle_least_witness :
  exists tr2,
    PoF.solve_puzzle 6 (bytes_lit "vdf") Samples.fresh = Some (Ok 5, tr2)
    /\ (0 <= 5
        /\ tr2 = Triad.set_nonce 5 (HeaderHash.refresh Samples.fresh)
        /\ HeaderHash.final_hash Samples.fresh (bytes_lit "vdf") 5
           < Z.shiftr (2 ^ 256 - 1) (Triad.difficulty Samples.fresh)
        /\ forall m, 0 <= m < 5 ->
             Z.shiftr (2 ^ 256 - 1) (Triad.difficulty Samples.fresh)
             <= HeaderHash.final_hash Samples.fresh (bytes_lit "vdf") m).
Proof.
  eexists. split; [vm_compute; reflexivity|].
  apply (solve_puzzle_least 6 (bytes_lit "vdf") Samples.fresh).
  vm_compute. reflexivity.
Defined.

Lemma solve_puzzle_finds_witness :
  exists n', PoF.solve_puzzle (S (Z.to_nat 5)) (bytes_lit "vdf") Samples.fresh
             = Some (Ok n', Triad.set_nonce n' (HeaderHash.refresh Samples.fresh))
             /\ 0 <= n' <= 5.
Proof.
  apply (solve_puzzle_finds (bytes_lit "vdf") Samples.fresh 5).
  - vm_compute. discriminate.
  - vm_compute. discriminate.
  - vm_compute. reflexivity.
  - vm_compute. reflexivity.
Defined.

Lemma difficulty_saturated_witness :
  (forall n tr2,
     PoF.solve_puzzle 1000 (bytes_lit "vdf") (MoreSamples.with_difficulty 256)
     <> Some (Ok n, tr2))
  /\ fst (PoF.verify_solution 2 (bytes_lit "vdf") (bytes_lit "vdf")
                              (MoreSamples.with_difficulty 256)) <> Ok true
  /\ (HeaderHash.frame_renders (MoreSamples.with_difficulty 256) = true ->
      Z.of_nat 1000 <= int_str_bound ->
      PoF.solve_puzzle 1000 (bytes_lit "vdf") (MoreSamples.with_difficulty 256)
      = None)
  /\ (HeaderHash.renders (MoreSamples.with_difficulty 256) = true ->
      fst (PoF.verify_solution 2 (bytes_lit "vdf") (bytes_lit "vdf")
                               (MoreSamples.with_difficulty 256)) = Ok false).
Proof.
  apply (difficulty_saturated (MoreSamples.with_difficulty 256) 1000 2).
  vm_compute. discriminate.
Defined.

Lemma difficulty_negative_witness :
  PoF.solve_puzzle 7 (bytes_lit "vdf") (MoreSamples.with_difficulty (-1))
  = Some (Raise (if int_renders (Triad.height (MoreSamples.with_difficulty (-1)))
                 then ValueError "negative shift count"
                 else int_conversion_error),
          MoreSamples.with_difficulty (-1))
  /\ fst (PoF.verify_solution 2 (bytes_lit "vdf") (bytes_lit "vdf")
                              (MoreSamples.with_difficulty (-1)))
     = if HeaderHash.frame_renders (MoreSamples.with_difficulty (-1)) then
         if VDF.verify (HeaderHash.header_hash_of
                          (Triad.set_nonce 0 (MoreSamples.with_difficulty (-1))))
                       2 (bytes_lit "vdf") (bytes_lit "vdf")
         then Raise (ValueError "negative shift count")
         else Ok false
       else Raise int_conversion_error.
Proof.
  apply (difficulty_negative (MoreSamples.with_difficulty (-1)) 7 2).
  vm_compute. reflexivity.
Defined.

(** On the header with difficulty -1 the search raises the [ValueError]
    of the shift; on [MoreSamples.oversized] it raises that of the message
    it prints first, and leaves the nonce 7. *)
Example solve_puzzle_raises :
  PoF.solve_puzzle 7 (bytes_lit "vdf") (MoreSamples.with_difficulty (-1))
  = Some (Raise (ValueError "negative shift count"), MoreSamples.with_difficulty (-1))
  /\ PoF.solve_puzzle 7 (bytes_lit "vdf") MoreSamples.oversized
     = Some (Raise int_conversion_error, MoreSamples.oversized).
Proof. split; vm_compute; reflexivity. Qed.

Lemma verify_solution_iff_witness :
  let tr := Samples.fresh in
  let out := bytes_lit "vdf" in
  (fst (PoF.verify_solution 2 out out tr) = Ok true
   <-> HeaderHash.renders tr = true
       /\ out = out
       /\ out = Nat.iter (Z.to_nat 2) sha256_hash
                         (HeaderHash.header_hash_of (Triad.set_nonce 0 tr))
       /\ HeaderHash.final_hash tr out (Triad.nonce tr)
          < (2 ^ 256 - 1) / 2 ^ Triad.difficulty tr)
  /\ (HeaderHash.renders tr = true ->
      fst (PoF.verify_solution 2 out out tr) = Ok true
      \/ fst (PoF.verify_solution 2 out out tr) = Ok false)
  /\ (forall e, fst (PoF.verify_solution 2 out out tr) = Raise e ->
        e = int_conversion_error /\ HeaderHash.renders tr = false).
Proof.
  apply (verify_solution_iff Samples.fresh 2 (bytes_lit "vdf") (bytes_lit "vdf")).
  vm_compute. discriminate.
Defined.

(** ** The header: what its hash covers *)

Section HeaderFields.
Import Triad TriadMethods HeaderHash.

Local Opaque sha256_hash merkle_root int_renders.

(** The header hash covers [parent_hash], [height], [timestamp], [nonce],
    [miner_address], [difficulty] and the transactions, and nothing else:
    two headers that agree on these have the same hash, whatever their
    stored Merkle root, child hashes, aggregated proof and committee key. *)
Theorem header_hash_covers (tr tr' : Triad.t) :
  parent_hash tr = parent_hash tr' ->
  height tr = height tr' ->
  timestamp tr = timestamp tr' ->
  nonce tr = nonce tr' ->
  miner_address tr = miner_address tr' ->
  difficulty tr = difficulty tr' ->
  transactions tr = transactions tr' ->
  fst (get_header_hash tr) = fst (get_header_hash tr').
Proof.
  intros. destruct tr, tr'; cbn [parent_hash height timestamp nonce
    miner_address difficulty transactions] in *; subst.
  unfold get_header_hash, calculate_merkle_root, bind, get, modify, lift, ret.
  cbn [transactions].
  match goal with |- context [match ?l with [] => _ | _ :: _ => _ end] =>
    destruct l as [|tx txs] end;
    [|destruct (get_hashes (tx :: txs)); [|reflexivity]];
    unfold to_dict_for_hashing;
    cbn [set_tx_merkle_root parent_hash height timestamp nonce miner_address
         difficulty tx_merkle_root];
    match goal with |- context [JSON.dumps_sorted ?d] =>
      destruct (JSON.dumps_sorted d) end; reflexivity.
Qed.

(** When every transaction hash can be computed, [calculate_merkle_root]
    stores [merkle_root] of the transaction hashes (the separate branch for
    an empty list gives the same value) and changes no other field; this is
    the case whenever every integer of every transaction has at most 4300
    digits.  When a transaction hash raises, the exception propagates and
    the header is as it was.  A stored root is 32 bytes long, and a second
    call behaves as the first and changes nothing. *)
Theorem calculate_merkle_root_spec (tr : Triad.t) :
  (forall tx_hashes, get_hashes (transactions tr) = Ok tx_hashes ->
     calculate_merkle_root tr
     = (Ok tt, set_tx_merkle_root (merkle_root tx_hashes) tr)
     /\ length (tx_merkle_root (snd (calculate_merkle_root tr))) = 32%nat)
  /\ (forall e, get_hashes (transactions tr) = Raise e ->
        calculate_merkle_root tr = (Raise e, tr))
  /\ (forallb tx_renders (transactions tr) = true ->
        exists tx_hashes, get_hashes (transactions tr) = Ok tx_hashes)
  /\ (forallb tx_renders (transactions tr) = false ->
        get_hashes (transactions tr) = Raise int_conversion_error)
  /\ calculate_merkle_root (snd (calculate_merkle_root tr))
     = calculate_merkle_root tr.
Proof.
  assert (Hok : forall tx_hashes, get_hashes (transactions tr) = Ok tx_hashes ->
            calculate_merkle_root tr
            = (Ok tt, set_tx_merkle_root (merkle_root tx_hashes) tr)).
  { intros hs H. unfold calculate_merkle_root, bind, get, modify, lift.
    destruct (transactions tr) as [|tx txs] eqn:E.
    - cbn in H. injection H as <-. now rewrite merkle_root_equation_1.
    - now rewrite H. }
  split; [|split; [|split; [|split]]].
  - intros hs H. split; [now apply Hok|].
    rewrite (Hok hs H). cbn [snd]. destruct tr; cbn [tx_merkle_root set_tx_merkle_root].
    apply merkle_root_length.
  - intros e H. unfold calculate_merkle_root, bind, get, modify, lift.
    destruct (transactions tr) as [|tx txs] eqn:E; [discriminate H|].
    now rewrite H.
  - apply get_hashes_ok.
  - apply get_hashes_raises.
  - apply (calculate_merkle_root_refresh tr).
Qed.

(** On a header whose integers all have at most 4300 digits
    [get_header_hash] returns 32 bytes; on any other header it raises the
    [ValueError] of [json.dumps].  Either way, calling it again gives the
    same outcome and leaves the header as the first call left it, and the
    nonce and the transactions are never changed by it. *)
Theorem get_header_hash_repeatable (tr : Triad.t) :
  let first := get_header_hash tr in
  (renders tr = true -> exists h, fst first = Ok h /\ length h = 32%nat)
  /\ (renders tr = false -> fst first = Raise int_conversion_error)
  /\ get_header_hash (snd first) = first
  /\ nonce (snd first) = nonce tr
  /\ transactions (snd first) = transactions tr.
Proof.
  cbv zeta. rewrite get_header_hash_twice.
  split; [|split; [|split; [|split]]].
  - intros H. destruct (get_header_hash_ok tr H) as (h & -> & Hlen).
    now exists h.
  - intros H. now rewrite (get_header_hash_raises tr H).
  - reflexivity.
  - rewrite get_header_hash_eq. apply nonce_refresh.
  - rewrite get_header_hash_eq. apply transactions_refresh.
Qed.

End HeaderFields.

Lemma header_hash_covers_witness :
  fst (TriadMethods.get_header_hash Samples.fresh)
  = fst (TriadMethods.get_header_hash MoreSamples.finalized).
Proof.
  apply (header_hash_covers Samples.fresh MoreSamples.finalized); reflexivity.
Defined.

(** [MoreSamples.oversized] has a height of 4301 digits: its header hash
    raises, twice over, and the nonce 7 stays. *)
Example get_header_hash_oversized :
  let first := TriadMethods.get_header_hash MoreSamples.oversized in
  fst first = Raise int_conversion_error
  /\ TriadMethods.get_header_hash (snd first) = first
  /\ Triad.nonce (snd first) = 7.
Proof. vm_compute. repeat split. Qed.

(** ** Hexadecimal text *)

Lemma hex_cons (b : byte) (rest : bytes) :
  hex (b :: rest)
  = hex_digit (Z_of_byte b / 16) :: hex_digit (Z_of_byte b mod 16) :: hex rest.
Proof. reflexivity. Qed.

Lemma hex_length (b : bytes) : length (hex b) = (2 * length b)%nat.
Proof.
  induction b as [|x b IH]; [reflexivity|].
  rewrite hex_cons. cbn [length]. lia.
Qed.

Lemma fromhex_byte (b : byte) :
  is_space (hex_digit (Z_of_byte b / 16)) = false
  /\ hex_value (hex_digit (Z_of_byte b / 16)) = Some (Z_of_byte b / 16)
  /\ hex_value (hex_digit (Z_of_byte b mod 16)) = Some (Z_of_byte b mod 16)
  /\ byte_of_Z (16 * (Z_of_byte b / 16) + Z_of_byte b mod 16) = b.
Proof. destruct b; repeat split; reflexivity. Qed.

(** [bytes.fromhex(b.hex()) == b]: the hexadecimal text of any byte
    string decodes to that byte string. *)
Theorem fromhex_hex (b : bytes) : bytes_fromhex (hex b) = Ok b.
Proof.
  induction b as [|x b IH]; [reflexivity|].
  rewrite hex_cons. cbn [bytes_fromhex].
  destruct (fromhex_byte x) as (Hs & Ht & Hb & Hx).
  now rewrite Hs, Ht, Hb, IH, Hx.
Qed.

(** ** Addresses and signed transactions *)

Lemma hex_digits (b : bytes) : forallb lower_hex_digit (hex b) = true.
Proof.
  induction b as [|x b IH]; [reflexivity|].
  rewrite hex_cons. cbn [forallb]. rewrite IH, !andb_true_r.
  destruct x; reflexivity.
Qed.

Section Addresses.

Variable ecdsa_public_key : bytes -> bytes.
Variable ecdsa_sign : bytes -> bytes -> bytes -> bytes.
Variable ecdsa_verify : bytes -> bytes -> bytes -> result bool.

Local Opaque sha256_hash.

Lemma address_tail_length (pk : bytes) :
  length (skipn (length (sha256_hash pk) - 20) (sha256_hash pk)) = 20%nat.
Proof. rewrite length_skipn, !sha256_hash_length. reflexivity. Qed.

(** An address is always 43 characters: [WAC] followed by 40 lower-case
    hexadecimal digits, which decode to the last 20 bytes of the SHA-256
    digest of the public key; and it is the address [is_valid] derives
    from that public key. *)
Theorem get_address_format (key_pair : KeyPair.t) :
  let address := KeyPair.get_address ecdsa_public_key key_pair in
  let pk := KeyPair.public_key ecdsa_public_key key_pair in
  exists digits,
    address = str_lit "WAC" ++ digits
    /\ length digits = 40%nat
    /\ length address = 43%nat
    /\ forallb lower_hex_digit digits = true
    /\ bytes_fromhex digits = Ok (skipn 12 (sha256_hash pk))
    /\ address = Transaction.addr_from_pubkey pk.
Proof.
  cbv zeta. unfold KeyPair.get_address.
  set (pk := KeyPair.public_key ecdsa_public_key key_pair).
  exists (hex (skipn (length (sha256_hash pk) - 20) (sha256_hash pk))).
  split; [reflexivity|].
  split; [now rewrite hex_length, address_tail_length|].
  split; [now rewrite length_app, hex_length, address_tail_length|].
  split; [|split; [|reflexivity]].
  - apply hex_digits.
  - rewrite fromhex_hex, sha256_hash_length. reflexivity.
Qed.

Hypothesis verify_sign :
  forall sk entropy message,
    ecdsa_verify (ecdsa_public_key sk) (ecdsa_sign sk entropy message) message
    = Ok true.
Hypothesis sign_nonempty :
  forall sk entropy message, ecdsa_sign sk entropy message <> [].
Hypothesis public_key_nonempty : forall sk, ecdsa_public_key sk <> [].

Lemma payload_unsigned (tx : Transaction.t) (sig pk : option bytes) :
  Transaction.payload (Signing.set_signature sig (Signing.set_public_key pk tx))
  = Transaction.payload tx.
Proof. reflexivity. Qed.

Lemma payload_set_public_key (tx : Transaction.t) (pk : option bytes) :
  Transaction.payload (Signing.set_public_key pk tx) = Transaction.payload tx.
Proof. reflexivity. Qed.

(** [sign] refuses a key pair whose address is not the sender and leaves
    no trace.  With the sender's key pair, on a transaction whose integers
    have at most 4300 digits, it stores public key and signature, changes
    no signed field, and the signed transaction is valid and accepted by
    [add_transaction] -- given an ECDSA library whose verification accepts
    its own signatures.  With the sender's key pair on any other
    transaction the payload raises the [ValueError] of [json.dumps], after
    the public key has been stored and before any signature is. *)
Theorem sign_then_valid (tx : Transaction.t) (key_pair : KeyPair.t)
    (entropy : bytes) (tr : Triad.t) :
  let address := KeyPair.get_address ecdsa_public_key key_pair in
  let outcome := Signing.sign ecdsa_public_key ecdsa_sign tx key_pair entropy in
  (str_eqb address (Transaction.from_address tx) = false ->
   outcome = (Raise (ValueError "Cannot sign transaction for another address."), tx))
  /\ (str_eqb address (Transaction.from_address tx) = true ->
      HeaderHash.tx_renders tx = true ->
      exists tx',
        outcome = (Ok tt, tx')
        /\ Transaction.payload tx' = Transaction.payload tx
        /\ Transaction.public_key tx'
           = Some (KeyPair.public_key ecdsa_public_key key_pair)
        /\ Transaction.is_valid ecdsa_verify tx' = Ok true
        /\ TriadMethods.add_transaction ecdsa_verify tx' tr
           = (Ok tt, Triad.set_transactions (Triad.transactions tr ++ [tx']) tr))
  /\ (str_eqb address (Transaction.from_address tx) = true ->
      HeaderHash.tx_renders tx = false ->
      outcome
      = (Raise int_conversion_error,
         Signing.set_public_key
           (Some (KeyPair.public_key ecdsa_public_key key_pair)) tx)).
Proof.
  cbv zeta. unfold Signing.sign.
  split; [|split]; intros Haddr; rewrite Haddr; cbn [negb]; [reflexivity| |];
    intros Hr; rewrite payload_set_public_key.
  2:{ now rewrite (payload_raises tx Hr). }
  destruct (payload_ok tx Hr) as [message Hm]. rewrite Hm.
  eexists. split; [reflexivity|].
  assert (Hvalid : Transaction.is_valid ecdsa_verify
            (Signing.set_signature
               (Some (KeyPair.sign ecdsa_sign key_pair entropy message))
               (Signing.set_public_key
                  (Some (KeyPair.public_key ecdsa_public_key key_pair)) tx))
            = Ok true).
  { apply is_valid_true_iff.
    destruct (str_eqb (Transaction.from_address tx) (str_lit "COINBASE")) eqn:Hc;
      [left; exact Hc|right].
    unfold Reference.signature_validates.
    rewrite payload_unsigned, Hm.
    cbn [Signing.set_signature
      Signing.set_public_key Transaction.signature Transaction.public_key
      Transaction.from_address].
    unfold KeyPair.sign, KeyPair.public_key.
    pose proof (sign_nonempty (KeyPair.private_key key_pair) entropy message) as Hs.
    pose proof (public_key_nonempty (KeyPair.private_key key_pair)) as Hp.
    pose proof (verify_sign (KeyPair.private_key key_pair) entropy message) as Hv.
    destruct (ecdsa_sign _ _ _) as [|s sig]; [contradiction|].
    destruct (ecdsa_public_key _) as [|p pk] eqn:Epk; [contradiction|].
    rewrite Hv, andb_true_r.
    unfold KeyPair.get_address, KeyPair.public_key in Haddr. rewrite Epk in Haddr.
    exact Haddr. }
  split; [rewrite payload_unsigned; exact Hm|]. split; [reflexivity|]. split.
  - exact Hvalid.
  - rewrite add_transaction_eq, Hvalid. reflexivity.
Qed.

End Addresses.

Lemma toy_verify_sign (sk entropy message : bytes) :
  ToyECDSA.verify (ToyECDSA.public_key sk) (ToyECDSA.sign sk entropy message) message
  = Ok true.
Proof. unfold ToyECDSA.verify. cbn [ToyECDSA.public_key tl]. now rewrite bytes_eqb_refl. Qed.

Lemma toy_sign_nonempty (sk entropy message : bytes) :
  ToyECDSA.sign sk entropy message <> [].
Proof. discriminate. Qed.

Lemma toy_public_key_nonempty (sk : bytes) : ToyECDSA.public_key sk <> [].
Proof. discriminate. Qed.

Lemma sign_then_valid_witness :
  str_eqb (KeyPair.get_address ToyECDSA.public_key ToyECDSA.alice)
          (Transaction.from_address ToyECDSA.payment) = true
  /\ HeaderHash.tx_renders ToyECDSA.payment = true
  /\ exists tx',
       Signing.sign ToyECDSA.public_key ToyECDSA.sign ToyECDSA.payment ToyECDSA.alice []
       = (Ok tt, tx')
       /\ Transaction.payload tx' = Transaction.payload ToyECDSA.payment
       /\ Transaction.public_key tx'
          = Some (KeyPair.public_key ToyECDSA.public_key ToyECDSA.alice)
       /\ Transaction.is_valid ToyECDSA.verify tx' = Ok true
       /\ TriadMethods.add_transaction ToyECDSA.verify tx' Samples.fresh
          = (Ok tt, Triad.set_transactions
                      (Triad.transactions Samples.fresh ++ [tx']) Samples.fresh).
Proof.
  assert (Haddr : str_eqb (KeyPair.get_address ToyECDSA.public_key ToyECDSA.alice)
                          (Transaction.from_address ToyECDSA.payment) = true)
    by (vm_compute; reflexivity).
  assert (Hr : HeaderHash.tx_renders ToyECDSA.payment = true)
    by (vm_compute; reflexivity).
  split; [exact Haddr|]. split; [exact Hr|].
  exact (proj1 (proj2 (sign_then_valid ToyECDSA.public_key ToyECDSA.sign ToyECDSA.verify
           toy_verify_sign toy_sign_nonempty toy_public_key_nonempty
           ToyECDSA.payment ToyECDSA.alice [] Samples.fresh)) Haddr Hr).
Defined.

(** The signed payment is valid; with its amount changed afterwards it is
    not. *)
Example signed_payment_tampered :
  exists tx',
    Signing.sign ToyECDSA.public_key ToyECDSA.sign ToyECDSA.payment ToyECDSA.alice []
    = (Ok tt, tx')
    /\ Transaction.is_valid ToyECDSA.verify tx' = Ok true
    /\ Transaction.is_valid ToyECDSA.verify
         (Transaction.Build (Transaction.from_address tx') (Transaction.to_address tx')
            8 (Transaction.fee tx') (Transaction.nonce tx') (Transaction.timestamp tx')
            (Transaction.signature tx') (Transaction.public_key tx'))
       = Ok false.
Proof.
  eexists. split; [vm_compute; reflexivity|]. split; vm_compute; reflexivity.
Qed.

(** A payment whose amount has 4301 digits cannot be signed: the payload
    raises, and the transaction is left with the public key but without a
    signature. *)
Example sign_oversized :
  let tx := Transaction.Build (KeyPair.get_address ToyECDSA.public_key ToyECDSA.alice)
              (str_lit "WACbob") int_str_bound 1 0 1700000002 None None in
  let outcome := Signing.sign ToyECDSA.public_key ToyECDSA.sign tx ToyECDSA.alice [] in
  fst outcome = Raise int_conversion_error
  /\ Transaction.public_key (snd outcome)
     = Some (KeyPair.public_key ToyECDSA.public_key ToyECDSA.alice)
  /\ Transaction.signature (snd outcome) = None.
Proof. vm_compute. repeat split. Qed.

(** ** The simplified VRF *)

Section VRFProperties.

Variable ecdsa_public_key : bytes -> bytes.
Variable ecdsa_sign : bytes -> bytes -> bytes -> bytes.
Variable ecdsa_verify : bytes -> bytes -> bytes -> result bool.

Local Opaque sha256_hash.

(** [simple_vrf_verify] accepts only when the signature check of the
    proof succeeds and the output is the SHA-256 digest of the proof, so
    a proof admits exactly one output, 32 bytes long. *)
Theorem simple_vrf_verify_sound (public_key input_data random_output proof : bytes) :
  VRF.simple_vrf_verify ecdsa_verify public_key input_data random_output proof
  = Ok true
  <-> ecdsa_verify public_key proof input_data = Ok true
      /\ random_output = sha256_hash proof.
Proof.
  unfold VRF.simple_vrf_verify.
  rewrite <- KeyPair_verify_true.
  destruct (Transaction.KeyPair_verify ecdsa_verify public_key proof input_data)
    as [[|]|e].
  - split.
    + intros [= H]. apply bytes_eqb_eq in H. now split.
    + intros [_ ->]. now rewrite bytes_eqb_refl.
  - split; [discriminate|]. now intros [H _].
  - split; [discriminate|]. now intros [H _].
Qed.

Hypothesis verify_sign :
  forall sk entropy message,
    ecdsa_verify (ecdsa_public_key sk) (ecdsa_sign sk entropy message) message
    = Ok true.

(** What [simple_vrf] returns is accepted by [simple_vrf_verify] under
    the key pair's public key, for every input and entropy -- given an
    ECDSA library whose verification accepts its own signatures. *)
Theorem simple_vrf_round_trip (key_pair : KeyPair.t) (entropy input_data : bytes) :
  let result := VRF.simple_vrf ecdsa_sign key_pair entropy input_data in
  VRF.simple_vrf_verify ecdsa_verify
    (KeyPair.public_key ecdsa_public_key key_pair) input_data
    (fst result) (snd result) = Ok true
  /\ length (fst result) = 32%nat.
Proof.
  cbv zeta. split; [|apply sha256_hash_length].
  unfold VRF.simple_vrf_verify, VRF.simple_vrf. cbn [fst snd].
  assert (H : Transaction.KeyPair_verify ecdsa_verify
                (KeyPair.public_key ecdsa_public_key key_pair)
                (KeyPair.sign ecdsa_sign key_pair entropy input_data) input_data
              = Ok true) by (apply KeyPair_verify_true, verify_sign).
  rewrite H. now rewrite bytes_eqb_refl.
Qed.

End VRFProperties.

Lemma simple_vrf_round_trip_witness :
  let result := VRF.simple_vrf ToyECDSA.sign ToyECDSA.alice [] (bytes_lit "seed") in
  VRF.simple_vrf_verify ToyECDSA.verify
    (KeyPair.public_key ToyECDSA.public_key ToyECDSA.alice) (bytes_lit "seed")
    (fst result) (snd result) = Ok true
  /\ length (fst result) = 32%nat.
Proof.
  exact (simple_vrf_round_trip ToyECDSA.public_key ToyECDSA.sign ToyECDSA.verify
           toy_verify_sign ToyECDSA.alice [] (bytes_lit "seed")).
Defined.

(** ** The Merkle tree wrapper *)

Section MerkleTreeProperties.

Local Opaque sha256_hash.

(** The root of [MerkleTree(items)] is [merkle_root(items)] for every
    list (its own test for the empty list changes nothing) and is 32
    bytes long; for a single item it is the hash of the item, not the
    item. *)
Theorem merkle_tree_root (items : list bytes) :
  MerkleTree.get_root (MerkleTree.init items) = merkle_root items
  /\ length (MerkleTree.get_root (MerkleTree.init items)) = 32%nat
  /\ (forall item, MerkleTree.get_root (MerkleTree.init [item]) = sha256_hash item).
Proof.
  assert (H : forall l, MerkleTree.get_root (MerkleTree.init l) = merkle_root l).
  { intros [|x l]; cbn; [now rewrite merkle_root_equation_1|reflexivity]. }
  split; [apply H|]. split.
  - rewrite H. apply merkle_root_length.
  - intros item. rewrite H. apply merkle_root_equation_2.
Qed.

End MerkleTreeProperties.

(** ** The simulated aggregation of [bls.py] *)

Lemma Z_of_byte_inj (x y : byte) : Z_of_byte x = Z_of_byte y -> x = y.
Proof.
  unfold Z_of_byte. intros H. apply N2Z.inj in H.
  pose proof (Byte.of_to_N x) as Hx. rewrite H, Byte.of_to_N in Hx. congruence.
Qed.

Lemma bytes_leb_total (a b : bytes) : bytes_leb a b = true \/ bytes_leb b a = true.
Proof.
  revert b; induction a as [|x a IH]; intros [|y b]; cbn; auto.
  destruct (Z.ltb_spec (Z_of_byte x) (Z_of_byte y)); auto.
  destruct (Z.ltb_spec (Z_of_byte y) (Z_of_byte x)); auto.
Qed.

Lemma bytes_leb_antisym (a b : bytes) :
  bytes_leb a b = true -> bytes_leb b a = true -> a = b.
Proof.
  revert b; induction a as [|x a IH]; intros [|y b]; cbn; try easy.
  destruct (Z.ltb_spec (Z_of_byte x) (Z_of_byte y));
    destruct (Z.ltb_spec (Z_of_byte y) (Z_of_byte x)); try easy; try lia.
  intros Hab Hba. f_equal; [apply Z_of_byte_inj; lia | now apply IH].
Qed.

Lemma bytes_leb_trans (a b c : bytes) :
  bytes_leb a b = true -> bytes_leb b c = true -> bytes_leb a c = true.
Proof.
  revert b c; induction a as [|x a IH]; intros [|y b] [|z c]; cbn; try easy.
  destruct (Z.ltb_spec (Z_of_byte x) (Z_of_byte y));
    destruct (Z.ltb_spec (Z_of_byte y) (Z_of_byte x));
    destruct (Z.ltb_spec (Z_of_byte y) (Z_of_byte z));
    destruct (Z.ltb_spec (Z_of_byte z) (Z_of_byte y));
    destruct (Z.ltb_spec (Z_of_byte x) (Z_of_byte z));
    destruct (Z.ltb_spec (Z_of_byte z) (Z_of_byte x));
    try easy; try lia.
  apply IH.
Qed.

Ltac leb_norm :=
  cbn [insert_bytes];
  repeat match goal with
         | H : bytes_leb _ _ = _ |- _ => progress rewrite H
         end.

Lemma insert_bytes_comm (x y : bytes) (l : list bytes) :
  insert_bytes x (insert_bytes y l) = insert_bytes y (insert_bytes x l).
Proof.
  induction l as [|z l IH]; cbn [insert_bytes].
  - destruct (bytes_leb x y) eqn:Hxy, (bytes_leb y x) eqn:Hyx; try reflexivity.
    + now rewrite (bytes_leb_antisym _ _ Hxy Hyx).
    + destruct (bytes_leb_total x y); congruence.
  - destruct (bytes_leb y z) eqn:Hyz, (bytes_leb x z) eqn:Hxz; leb_norm.
    + destruct (bytes_leb x y) eqn:Hxy, (bytes_leb y x) eqn:Hyx; leb_norm;
        try reflexivity.
      * now rewrite (bytes_leb_antisym _ _ Hxy Hyx).
      * destruct (bytes_leb_total x y); congruence.
    + destruct (bytes_leb x y) eqn:Hxy; leb_norm; [|reflexivity].
      rewrite (bytes_leb_trans _ _ _ Hxy Hyz) in Hxz. discriminate.
    + destruct (bytes_leb y x) eqn:Hyx; leb_norm; [|reflexivity].
      rewrite (bytes_leb_trans _ _ _ Hyx Hxz) in Hyz. discriminate.
    + now rewrite IH.
Qed.

Lemma sorted_perm (l l' : list bytes) : Permutation l l' -> sorted l = sorted l'.
Proof.
  unfold sorted.
  induction 1 as [|x l l' _ IH|x y l|l l' l'' _ IH1 _ IH2]; cbn [fold_right].
  - reflexivity.
  - now rewrite IH.
  - apply insert_bytes_comm.
  - now rewrite IH1.
Qed.

Lemma insert_bytes_perm (x : bytes) (l : list bytes) :
  Permutation (x :: l) (insert_bytes x l).
Proof.
  induction l as [|y l IH]; cbn [insert_bytes]; [reflexivity|].
  destruct (bytes_leb x y); [reflexivity|].
  rewrite perm_swap. now constructor.
Qed.

Lemma sorted_is_perm (l : list bytes) : Permutation l (sorted l).
Proof.
  unfold sorted. induction l as [|x l IH]; cbn [fold_right]; [constructor|].
  rewrite <- insert_bytes_perm. now constructor.
Qed.

Lemma insert_bytes_sorted (x : bytes) (l : list bytes) :
  Sorted (fun a b => bytes_leb a b = true) l ->
  Sorted (fun a b => bytes_leb a b = true) (insert_bytes x l).
Proof.
  induction 1 as [|y l Hl IH Hy]; cbn [insert_bytes].
  - repeat constructor.
  - destruct (bytes_leb x y) eqn:Hxy.
    + constructor; [now constructor|now constructor].
    + constructor; [exact IH|].
      assert (Hyx : bytes_leb y x = true)
        by (destruct (bytes_leb_total x y); congruence).
      destruct l as [|z l]; cbn [insert_bytes]; [now constructor|].
      inversion Hy; subst. destruct (bytes_leb x z); now constructor.
Qed.

(** The insertion above computes what [sorted] returns: an ascending
    arrangement of the same elements. *)
Lemma sorted_ascending (l : list bytes) :
  Sorted (fun a b => bytes_leb a b = true) (sorted l).
Proof.
  unfold sorted. induction l as [|x l IH]; cbn [fold_right]; [constructor|].
  now apply insert_bytes_sorted.
Qed.

Section Stub.

Local Opaque sha256_hash.

(** The simulated aggregate does not depend on the order of the
    signatures (they are sorted first); it is empty for the empty list and
    32 bytes long otherwise; the same holds for public keys. *)
Theorem stub_aggregate_order_independent (signatures permuted : list bytes) :
  Permutation signatures permuted ->
  BLSStub.bls_aggregate_signatures signatures
  = BLSStub.bls_aggregate_signatures permuted
  /\ BLSStub.bls_aggregate_public_keys signatures
     = BLSStub.bls_aggregate_public_keys permuted
  /\ length (BLSStub.bls_aggregate_signatures signatures)
     = match signatures with [] => 0%nat | _ => 32%nat end.
Proof.
  intros Hperm.
  assert (Hs : sorted signatures = sorted permuted) by now apply sorted_perm.
  unfold BLSStub.bls_aggregate_signatures, BLSStub.bls_aggregate_public_keys.
  destruct signatures as [|s signatures], permuted as [|p permuted].
  - repeat split.
  - apply Permutation_nil in Hperm. discriminate.
  - apply Permutation_sym, Permutation_nil in Hperm. discriminate.
  - rewrite Hs. split; [reflexivity|]. split; [reflexivity|].
    apply sha256_hash_length.
Qed.

(** The simulated verification checks nothing but emptiness: an aggregate
    made by [bls_aggregate_signatures] is accepted for any public key and
    message that are not empty, whoever signed and whatever was signed. *)
Theorem stub_verify_accepts (signatures : list bytes) (public_key message : bytes) :
  BLSStub.bls_verify_aggregated
    (BLSStub.bls_aggregate_signatures signatures) public_key message = true
  <-> signatures <> [] /\ public_key <> [] /\ message <> [].
Proof.
  unfold BLSStub.bls_verify_aggregated.
  assert (Hagg : BLSStub.nonempty (BLSStub.bls_aggregate_signatures signatures) = true
                 <-> signatures <> []).
  { pose proof (sha256_hash_length (concat (sorted signatures))) as Hlen.
    unfold BLSStub.bls_aggregate_signatures.
    destruct signatures as [|s l]; cbn [BLSStub.nonempty].
    - split; [discriminate|congruence].
    - destruct (sha256_hash _) as [|d ds]; [discriminate Hlen|].
      split; [discriminate|reflexivity]. }
  destruct (BLSStub.nonempty (BLSStub.bls_aggregate_signatures signatures)) eqn:E.
  - destruct public_key as [|p pk], message as [|m msg]; cbn;
      (split; [intros H; try discriminate H;
               repeat split; try discriminate; now apply Hagg
              |intros (_ & Hp & Hm); try reflexivity; congruence]).
  - cbn. split; [discriminate|]. intros (Hs & _). apply Hagg in Hs. discriminate.
Qed.

End Stub.

Lemma stub_aggregate_order_independent_witness :
  BLSStub.bls_aggregate_signatures [Samples.sig_a; Samples.sig_b]
  = BLSStub.bls_aggregate_signatures [Samples.sig_b; Samples.sig_a]
  /\ BLSStub.bls_aggregate_public_keys [Samples.sig_a; Samples.sig_b]
     = BLSStub.bls_aggregate_public_keys [Samples.sig_b; Samples.sig_a]
  /\ length (BLSStub.bls_aggregate_signatures [Samples.sig_a; Samples.sig_b])
     = 32%nat.
Proof.
  apply (stub_aggregate_order_independent
           [Samples.sig_a; Samples.sig_b] [Samples.sig_b; Samples.sig_a]).
  apply perm_swap.
Defined.

(** ** Integers as bytes *)

Lemma Z_of_byte_of_Z (z : Z) : Z_of_byte (byte_of_Z z) = z mod 256.
Proof.
  unfold Z_of_byte, byte_of_Z.
  assert (Hz : 0 <= z mod 256 < 256) by (apply Z.mod_pos_bound; lia).
  destruct (Byte.of_N (Z.to_N (z mod 256))) as [b|] eqn:E.
  - apply Byte.to_of_N in E. rewrite E. lia.
  - apply Byte.of_N_None_iff in E. lia.
Qed.

Lemma int_from_bytes_big_cons (x : byte) (l : bytes) :
  int_from_bytes_big (x :: l)
  = Z_of_byte x * 2 ^ (8 * Z.of_nat (length l)) + int_from_bytes_big l.
Proof.
  unfold int_from_bytes_big. cbn [fold_left]. rewrite Z.mul_0_l, Z.add_0_l.
  generalize (Z_of_byte x) as acc.
  assert (H : forall (l : bytes) (a b : Z),
             fold_left (fun acc x => acc * 256 + Z_of_byte x) l (a + b)
             = a * 2 ^ (8 * Z.of_nat (length l))
               + fold_left (fun acc x => acc * 256 + Z_of_byte x) l b).
  { clear. induction l as [|y l IH]; intros a b; cbn [fold_left length].
    - cbn. lia.
    - replace ((a + b) * 256 + Z_of_byte y)
        with (a * 256 + (b * 256 + Z_of_byte y)) by lia.
      rewrite IH.
      replace (8 * Z.of_nat (S (length l))) with (8 + 8 * Z.of_nat (length l)) by lia.
      rewrite Z.pow_add_r by lia. change (2 ^ 8) with 256. lia. }
  intros acc. rewrite <- (H l acc 0). now rewrite Z.add_0_r.
Qed.

Lemma be_bytes_succ (width : nat) (x : Z) :
  SHA256.be_bytes (S width) x
  = byte_of_Z (Z.shiftr x (8 * Z.of_nat width)) :: SHA256.be_bytes width x.
Proof.
  unfold SHA256.be_bytes. rewrite seq_S, rev_app_distr. reflexivity.
Qed.

(** [int.from_bytes(n.to_bytes(width, 'big'), 'big')] is [n] reduced to
    [width] bytes. *)
Lemma int_from_bytes_be_bytes (width : nat) (x : Z) :
  0 <= x ->
  int_from_bytes_big (SHA256.be_bytes width x) = x mod 2 ^ (8 * Z.of_nat width).
Proof.
  intros Hx. induction width as [|width IH].
  - cbn. now rewrite Z.mod_1_r.
  - rewrite be_bytes_succ, int_from_bytes_big_cons, be_bytes_length, IH.
    rewrite Z_of_byte_of_Z, Z.shiftr_div_pow2 by lia.
    replace (8 * Z.of_nat (S width)) with (8 * Z.of_nat width + 8) by lia.
    rewrite Z.pow_add_r by lia. change (2 ^ 8) with 256.
    rewrite (Z.rem_mul_r x (2 ^ (8 * Z.of_nat width)) 256) by lia.
    lia.
Qed.

Lemma int_to_bytes_round_trip (width : nat) (x : Z) (b : bytes) :
  int_to_bytes_big x width = Ok b ->
  length b = width /\ int_from_bytes_big b = x.
Proof.
  unfold int_to_bytes_big.
  destruct (Z.ltb_spec x 0); [discriminate|].
  destruct (Z.leb_spec (2 ^ (8 * Z.of_nat width)) x); [discriminate|].
  intros [= <-]. split; [apply be_bytes_length|].
  rewrite int_from_bytes_be_bytes by assumption. apply Z.mod_small. lia.
Qed.

(** ** Key generation and signing *)

Section Keys.
Import ProductionKeys.

Variable bls_SkToPk : Z -> result bytes.
Variable bls_Sign : Z -> bytes -> result bytes.
Variable bls_Verify : bytes -> bytes -> bytes -> result bool.

Lemma urandom_split (n : nat) (pool drawn rest : bytes) :
  urandom n pool = Some (drawn, rest) ->
  pool = drawn ++ rest /\ length drawn = n.
Proof.
  unfold urandom. destruct (Nat.ltb_spec (length pool) n); [discriminate|].
  intros [= <- <-]. split; [now rewrite firstn_skipn|].
  rewrite length_firstn. lia.
Qed.

Lemma draw_secret_range (fuel : nat) :
  forall (pool pool' : bytes) (sk : Z),
    draw_secret fuel pool = Some (sk, pool') ->
    0 < sk < curve_order
    /\ exists used, pool = used ++ pool' /\ (32 <= length used)%nat.
Proof.
  induction fuel as [|fuel IH]; intros pool pool' sk H; [discriminate|].
  cbn [draw_secret] in H.
  destruct (urandom 32 pool) as [[drawn rest]|] eqn:E; [|discriminate].
  apply urandom_split in E as [-> Hlen].
  destruct (Z.ltb_spec 0 (int_from_bytes_big drawn mod curve_order));
    destruct (Z.ltb_spec (int_from_bytes_big drawn mod curve_order) curve_order);
    cbn [andb] in H.
  - injection H as <- <-. split; [lia|]. exists drawn. split; [reflexivity|lia].
  - apply IH in H as (Hr & used & -> & Hu). split; [exact Hr|].
    exists (drawn ++ used). rewrite <- app_assoc. split; [reflexivity|].
    rewrite length_app. lia.
  - apply IH in H as (Hr & used & -> & Hu). split; [exact Hr|].
    exists (drawn ++ used). rewrite <- app_assoc. split; [reflexivity|].
    rewrite length_app. lia.
  - apply IH in H as (Hr & used & -> & Hu). split; [exact Hr|].
    exists (drawn ++ used). rewrite <- app_assoc. split; [reflexivity|].
    rewrite length_app. lia.
Qed.

Lemma curve_order_bound : 0 < curve_order < 2 ^ (8 * Z.of_nat 32).
Proof. split; reflexivity. Qed.

(** Whatever the random bytes, a key pair that [generate_key_pair]
    returns has a secret key of exactly 32 bytes that spells a number
    strictly between 0 and the curve order, and its public key is the
    library's public key of that number; the only exception it can raise
    is the library's; and the first draw that is not 0 modulo the curve
    order ends the loop. *)
Theorem generate_key_pair_range (key_id : str) (pool pool' : bytes)
    (outcome : result BLSKeyPair) :
  generate_key_pair bls_SkToPk key_id pool = Some (outcome, pool') ->
  exists sk,
    0 < sk < curve_order
    /\ (forall key_pair, outcome = Ok key_pair ->
          length (secret_key key_pair) = 32%nat
          /\ int_from_bytes_big (secret_key key_pair) = sk
          /\ bls_SkToPk sk = Ok (public_key key_pair)
          /\ ProductionKeys.key_id key_pair = key_id)
    /\ (forall e, outcome = Raise e -> bls_SkToPk sk = Raise e)
    /\ (int_from_bytes_big (firstn 32 pool) mod curve_order <> 0 ->
        pool' = skipn 32 pool).
Proof.
  unfold generate_key_pair.
  destruct (draw_secret (S (length pool)) pool) as [[sk rest]|] eqn:E; [|discriminate].
  intros [= <- <-]. pose proof E as E'.
  apply draw_secret_range in E as (Hsk & used & Hpool & Hused).
  exists sk. split; [exact Hsk|].
  pose proof curve_order_bound as Hc.
  assert (Hb : int_to_bytes_big sk 32 = Ok (SHA256.be_bytes 32 sk)).
  { unfold int_to_bytes_big.
    destruct (Z.ltb_spec sk 0); [lia|].
    destruct (Z.leb_spec (2 ^ (8 * Z.of_nat 32)) sk); [lia|reflexivity]. }
  rewrite Hb. destruct (int_to_bytes_round_trip _ _ _ Hb) as [Hlen Hint].
  split; [|split].
  - intros key_pair Hk. destruct (bls_SkToPk sk) as [pk|e]; [|discriminate].
    injection Hk as <-.
    cbn [secret_key public_key ProductionKeys.key_id].
    split; [exact Hlen | split; [exact Hint | split; reflexivity]].
  - intros e He. destruct (bls_SkToPk sk) as [pk|e']; [discriminate|congruence].
  - intros Hnz. cbn [draw_secret] in E'. unfold urandom in E'.
    destruct (Nat.ltb_spec (length pool) 32); [discriminate|].
    pose proof (Z.mod_pos_bound (int_from_bytes_big (firstn 32 pool)) curve_order
                  ltac:(lia)) as Hm.
    destruct (Z.ltb_spec 0 (int_from_bytes_big (firstn 32 pool) mod curve_order));
      [|lia].
    destruct (Z.ltb_spec (int_from_bytes_big (firstn 32 pool) mod curve_order)
                         curve_order); [|lia].
    cbn [andb] in E'. now injection E' as _ <-.
Qed.

(** The library accepts what it signs: a signature made with a secret
    number verifies under the public key of that number. *)
Hypothesis verify_sign :
  forall sk message pk sig,
    bls_SkToPk sk = Ok pk -> bls_Sign sk message = Ok sig ->
    bls_Verify pk message sig = Ok true.

Lemma sign_message_returns (message secret_key pool : bytes)
    (signature : ProductionBLS.BLSSignature) (pool' : bytes) :
  sign_message bls_SkToPk bls_Sign message secret_key pool
  = Some (Ok signature, pool') ->
  length secret_key = 32%nat
  /\ ProductionBLS.message signature = message
  /\ bls_SkToPk (int_from_bytes_big secret_key)
     = Ok (ProductionBLS.public_key signature)
  /\ ProductionBLS.verify_signature bls_Verify signature = true.
Proof.
  unfold sign_message.
  destruct (Nat.eqb_spec (length secret_key) 32) as [Hlen|]; cbn [negb];
    [|discriminate].
  destruct (bls_Sign _ message) as [sig|e] eqn:Es; [|discriminate].
  destruct (bls_SkToPk _) as [pk|e] eqn:Ep; [|discriminate].
  destruct (urandom 4 pool) as [[stamp rest]|]; [|discriminate].
  intros [= <- <-].
  cbn [ProductionBLS.message ProductionBLS.public_key].
  split; [exact Hlen | split; [reflexivity | split; [reflexivity|]]].
  unfold ProductionBLS.verify_signature.
  cbn [ProductionBLS.message ProductionBLS.public_key ProductionBLS.signature].
  now rewrite (verify_sign _ _ _ _ Ep Es).
Qed.

(** [sign_message] refuses a secret key that is not 32 bytes long, before
    it uses any random byte; and a signature it returns carries the
    message and the public key of the secret key, and passes
    [verify_signature]. *)
Theorem sign_message_verifies (message secret_key pool : bytes) :
  (length secret_key <> 32%nat ->
   sign_message bls_SkToPk bls_Sign message secret_key pool
   = Some (Raise (ValueError "Secret key must be 32 bytes"), pool))
  /\ (forall signature pool',
        sign_message bls_SkToPk bls_Sign message secret_key pool
        = Some (Ok signature, pool') ->
        length secret_key = 32%nat
        /\ ProductionBLS.message signature = message
        /\ bls_SkToPk (int_from_bytes_big secret_key)
           = Ok (ProductionBLS.public_key signature)
        /\ ProductionBLS.verify_signature bls_Verify signature = true).
Proof.
  split.
  - intros Hlen. unfold sign_message.
    destruct (Nat.eqb_spec (length secret_key) 32); [contradiction|].
    reflexivity.
  - intros signature pool'. apply sign_message_returns.
Qed.

Lemma test_data_loop_valid (n : nat) :
  forall (i : Z) (pool pool' : bytes) (sigs : list ProductionBLS.BLSSignature),
    test_data_loop bls_SkToPk bls_Sign n i pool = Some (Ok sigs, pool') ->
    length sigs = n
    /\ Forall (fun sig => ProductionBLS.verify_signature bls_Verify sig = true) sigs.
Proof.
  induction n as [|n IH]; intros i pool pool' sigs H; cbn [test_data_loop] in H.
  - injection H as <- <-. split; [reflexivity|constructor].
  - destruct (str_of_int i) as [index|e]; [|discriminate].
    destruct (generate_key_pair _ _ pool) as [[[kp|e] pool1]|]; try discriminate.
    destruct (sign_message _ _ _ _ pool1) as [[[sig|e] pool2]|] eqn:Es;
      try discriminate.
    destruct (test_data_loop _ _ n (i + 1) pool2) as [[[rest|e] pool3]|] eqn:Er;
      try discriminate.
    injection H as <- <-.
    apply IH in Er as [Hlen Hall].
    destruct (sign_message_returns _ _ _ _ _ Es) as (_ & _ & _ & Hv).
    split; [cbn; now rewrite Hlen|now constructor].
Qed.

Lemma batch_verify_all_valid (sigs : list ProductionBLS.BLSSignature) :
  Forall (fun sig => ProductionBLS.verify_signature bls_Verify sig = true) sigs ->
  ProductionBLS.batch_verify bls_Verify sigs
  = ProductionBLS.MkResults (Z.of_nat (length sigs)) (Z.of_nat (length sigs)) 0 [].
Proof.
  intros Hall. unfold ProductionBLS.batch_verify, enumerate. rewrite batch_loop.
  assert (Hc : Reference.count_failing (ProductionBLS.verify_signature bls_Verify) sigs = 0
               /\ forall start, Reference.failing_positions
                                  (ProductionBLS.verify_signature bls_Verify) start sigs = []).
  { induction Hall as [|sig rest Hsig _ [IH1 IH2]]; [split; reflexivity|].
    split.
    - rewrite count_failing_cons, Hsig, IH1. reflexivity.
    - intros start. cbn [Reference.failing_positions]. rewrite Hsig. apply IH2. }
  destruct Hc as [-> ->]. cbn. f_equal. lia.
Qed.

(** Every signature [generate_test_data] makes passes verification:
    [batch_verify] on its result reports [count] signatures, all valid. *)
Theorem generate_test_data_valid (count : Z) (pool pool' : bytes)
    (sigs : list ProductionBLS.BLSSignature) :
  generate_test_data bls_SkToPk bls_Sign count pool = Some (Ok sigs, pool') ->
  Z.of_nat (length sigs) = Z.max 0 count
  /\ ProductionBLS.batch_verify bls_Verify sigs
     = ProductionBLS.MkResults (Z.max 0 count) (Z.max 0 count) 0 [].
Proof.
  unfold generate_test_data. intros H.
  apply test_data_loop_valid in H as [Hlen Hall].
  rewrite (batch_verify_all_valid _ Hall), Hlen. split; [lia|].
  now replace (Z.of_nat (Z.to_nat count)) with (Z.max 0 count) by lia.
Qed.

End Keys.

Lemma toy_bls_verify_sign (sk : Z) (message pk sig : bytes) :
  ToyBLS.SkToPk sk = Ok pk -> ToyBLS.Sign sk message = Ok sig ->
  ToyBLS.Verify pk message sig = Ok true.
Proof.
  unfold ToyBLS.SkToPk, ToyBLS.Sign, ToyBLS.Verify.
  intros [= <-] [= <-]. now rewrite bytes_eqb_refl.
Qed.

Lemma generate_key_pair_range_witness :
  exists outcome pool',
    ProductionKeys.generate_key_pair ToyBLS.SkToPk (str_lit "k") ToyBLS.pool
    = Some (outcome, pool')
    /\ exists sk,
         0 < sk < ProductionKeys.curve_order
         /\ (forall key_pair, outcome = Ok key_pair ->
               length (ProductionKeys.secret_key key_pair) = 32%nat
               /\ int_from_bytes_big (ProductionKeys.secret_key key_pair) = sk
               /\ ToyBLS.SkToPk sk = Ok (ProductionKeys.public_key key_pair)
               /\ ProductionKeys.key_id key_pair = str_lit "k")
         /\ (forall e, outcome = Raise e -> ToyBLS.SkToPk sk = Raise e)
         /\ (int_from_bytes_big (firstn 32 ToyBLS.pool) mod ProductionKeys.curve_order
             <> 0 ->
             pool' = skipn 32 ToyBLS.pool).
Proof.
  do 2 eexists. split; [vm_compute; reflexivity|].
  apply (generate_key_pair_range ToyBLS.SkToPk (str_lit "k") ToyBLS.pool).
  vm_compute. reflexivity.
Defined.

Lemma sign_message_verifies_witness :
  let secret_key := SHA256.be_bytes 32 5 in
  (length secret_key <> 32%nat ->
   ProductionKeys.sign_message ToyBLS.SkToPk ToyBLS.Sign (bytes_lit "m") secret_key
                               ToyBLS.pool
   = Some (Raise (ValueError "Secret key must be 32 bytes"), ToyBLS.pool))
  /\ (forall signature pool',
        ProductionKeys.sign_message ToyBLS.SkToPk ToyBLS.Sign (bytes_lit "m")
                                    secret_key ToyBLS.pool
        = Some (Ok signature, pool') ->
        length secret_key = 32%nat
        /\ ProductionBLS.message signature = bytes_lit "m"
        /\ ToyBLS.SkToPk (int_from_bytes_big secret_key)
           = Ok (ProductionBLS.public_key signature)
        /\ ProductionBLS.verify_signature ToyBLS.Verify signature = true).
Proof.
  exact (sign_message_verifies ToyBLS.SkToPk ToyBLS.Sign ToyBLS.Verify
           toy_bls_verify_sign (bytes_lit "m") (SHA256.be_bytes 32 5) ToyBLS.pool).
Defined.

Lemma generate_test_data_valid_witness :
  exists sigs pool',
    ProductionKeys.generate_test_data ToyBLS.SkToPk ToyBLS.Sign 2 ToyBLS.pool
    = Some (Ok sigs, pool')
    /\ (Z.of_nat (length sigs) = Z.max 0 2
        /\ ProductionBLS.batch_verify ToyBLS.Verify sigs
           = ProductionBLS.MkResults (Z.max 0 2) (Z.max 0 2) 0 []).
Proof.
  do 2 eexists. split; [vm_compute; reflexivity|].
  eapply (generate_test_data_valid ToyBLS.SkToPk ToyBLS.Sign ToyBLS.Verify
            toy_bls_verify_sign 2 ToyBLS.pool).
  vm_compute. reflexivity.
Defined.

(** ** Aggregating public keys, and the first mismatch *)

Section KeyAggregation.
Import ProductionKeys.

Variable bls_Aggregate : list bytes -> result bytes.
Variable bls_AggregatePKs : list bytes -> result bytes.

Lemma check_key_lengths_find (public_keys : list bytes) :
  check_key_lengths public_keys
  = match find (fun pk => negb (length pk =? 48)%nat) public_keys with
    | Some pk => Raise (ValueError ("Invalid public key length: "
                                      ++ repr_int (Z.of_nat (length pk))))
    | None => Ok tt
    end.
Proof.
  induction public_keys as [|pk rest IH]; [reflexivity|].
  cbn [check_key_lengths find]. now destruct (negb (length pk =? 48)%nat).
Qed.

Lemma check_lengths_find (signatures : list bytes) :
  ProductionBLS.check_lengths signatures
  = match find (fun sig => negb (length sig =? 96)%nat) signatures with
    | Some sig => Raise (ValueError ("Invalid signature length: "
                                       ++ repr_int (Z.of_nat (length sig))))
    | None => Ok tt
    end.
Proof.
  induction signatures as [|sig rest IH]; [reflexivity|].
  cbn [ProductionBLS.check_lengths find]. now destruct (negb (length sig =? 96)%nat).
Qed.

(** [aggregate_public_keys] raises its "empty list" [ValueError] on the
    empty list; otherwise, when some key is not 48 bytes long, it raises
    the [ValueError] that names the length of the first such key, without
    calling the library; and when every key is 48 bytes long its outcome
    is the library's.  [aggregate_signatures] reports the first signature
    that is not 96 bytes long in the same way. *)
Theorem aggregation_first_mismatch (items : list bytes) :
  aggregate_public_keys bls_AggregatePKs items
  = match items with
    | [] => Raise (ValueError "Cannot aggregate empty public key list")
    | _ =>
        match find (fun pk => negb (length pk =? 48)%nat) items with
        | Some pk => Raise (ValueError ("Invalid public key length: "
                                          ++ repr_int (Z.of_nat (length pk))))
        | None => bls_AggregatePKs items
        end
    end
  /\ ProductionBLS.aggregate_signatures bls_Aggregate items
     = match items with
       | [] => Raise (ValueError "Cannot aggregate empty signature list")
       | _ =>
           match find (fun sig => negb (length sig =? 96)%nat) items with
           | Some sig => Raise (ValueError ("Invalid signature length: "
                                              ++ repr_int (Z.of_nat (length sig))))
           | None => bls_Aggregate items
           end
       end.
Proof.
  unfold aggregate_public_keys, ProductionBLS.aggregate_signatures.
  rewrite check_key_lengths_find, check_lengths_find.
  destruct items as [|x l]; [split; reflexivity|].
  split.
  - destruct (find (fun pk => negb (length pk =? 48)%nat) (x :: l)); reflexivity.
  - destruct (find (fun sig => negb (length sig =? 96)%nat) (x :: l)); reflexivity.
Qed.

End KeyAggregation.

Example aggregate_public_keys_first_mismatch :
  ProductionKeys.aggregate_public_keys (fun _ => Ok [])
    [repeat x01 48; bytes_lit "short_pubkey"; bytes_lit "x"]
  = Raise (ValueError "Invalid public key length: 12").
Proof. reflexivity. Qed.

(** ** Serialized signatures *)

Section Serialization.
Import ProductionKeys.

Variable json_loads : str -> result JSON.dict.

Lemma signature_dict_renders (signature : ProductionBLS.BLSSignature) :
  JSON.renders (signature_dict signature)
  = JSON.value_renders (ProductionBLS.timestamp signature).
Proof.
  unfold JSON.renders, signature_dict. cbn [forallb snd JSON.value_renders].
  now rewrite andb_true_r.
Qed.

(** [serialize_signature] returns a text unless the timestamp is an
    integer of more than 4300 digits, which makes [json.dumps] raise; and
    a serialized signature deserializes to the signature it came from:
    each byte field survives the trip through hexadecimal text, and the
    timestamp is stored as it was read, whatever it is -- given that
    [json.loads] returns the dictionary that [json.dumps] wrote. *)
Theorem deserialize_serialize (signature : ProductionBLS.BLSSignature) :
  (JSON.value_renders (ProductionBLS.timestamp signature) = true ->
   exists text, serialize_signature signature = Ok text)
  /\ (JSON.value_renders (ProductionBLS.timestamp signature) = false ->
      serialize_signature signature = Raise int_conversion_error)
  /\ (forall text,
        serialize_signature signature = Ok text ->
        json_loads text = Ok (signature_dict signature) ->
        deserialize_signature json_loads text = Ok signature).
Proof.
  split; [|split].
  - intros H. rewrite <- signature_dict_renders in H.
    destruct (dump_items_ok _ H) as [parts Hparts].
    unfold serialize_signature, json_dumps. rewrite Hparts. eexists; reflexivity.
  - intros H. rewrite <- signature_dict_renders in H.
    unfold serialize_signature, json_dumps. now rewrite (dump_items_raises _ H).
  - intros text _ Hloads. unfold deserialize_signature. rewrite Hloads.
    unfold hex_field, signature_dict. cbn [dict_get String.eqb Ascii.eqb Bool.eqb].
    rewrite !fromhex_hex. now destruct signature.
Qed.

(** A dictionary without one of the four keys is refused. *)
Lemma deserialize_rejects (serialized : str) (data : JSON.dict) :
  json_loads serialized = Ok data ->
  (dict_get data "signature" = None \/ dict_get data "public_key" = None
   \/ dict_get data "message" = None \/ dict_get data "timestamp" = None) ->
  exists e, deserialize_signature json_loads serialized = Raise e.
Proof.
  intros Hloads Hmiss. unfold deserialize_signature, hex_field. rewrite Hloads.
  destruct (dict_get data "signature") as [[n|s|]|]; try (eexists; reflexivity).
  destruct (bytes_fromhex s); [|eexists; reflexivity].
  destruct (dict_get data "public_key") as [[n|s'|]|]; try (eexists; reflexivity).
  destruct (bytes_fromhex s'); [|eexists; reflexivity].
  destruct (dict_get data "message") as [[n|s''|]|]; try (eexists; reflexivity).
  destruct (bytes_fromhex s''); [|eexists; reflexivity].
  destruct (dict_get data "timestamp") as [timestamp|]; [|eexists; reflexivity].
  destruct Hmiss as [H|[H|[H|H]]]; discriminate.
Qed.

(** A timestamp that is no integer is kept as it is. *)
Lemma deserialize_keeps_timestamp (serialized : str) (sig pk message : bytes)
    (timestamp : JSON.value) :
  json_loads serialized
  = Ok [ ("signature", JSON.Str (hex sig)); ("public_key", JSON.Str (hex pk));
         ("message", JSON.Str (hex message)); ("timestamp", timestamp) ] ->
  deserialize_signature json_loads serialized
  = Ok (ProductionBLS.MkSignature sig pk message timestamp).
Proof.
  intros Hloads. unfold deserialize_signature. rewrite Hloads.
  unfold hex_field. cbn [dict_get String.eqb Ascii.eqb Bool.eqb].
  now rewrite !fromhex_hex.
Qed.

End Serialization.

Lemma deserialize_serialize_witness :
  exists text,
    ProductionKeys.serialize_signature Samples.good = Ok text
    /\ loads_good text = Ok (ProductionKeys.signature_dict Samples.good)
    /\ ProductionKeys.deserialize_signature loads_good text = Ok Samples.good.
Proof.
  eexists. split; [vm_compute; reflexivity|].
  split; [vm_compute; reflexivity|].
  apply (proj2 (proj2 (deserialize_serialize loads_good Samples.good))).
  - vm_compute. reflexivity.
  - vm_compute. reflexivity.
Defined.

(** ** Batch verification of a list in parts *)

Section BatchParts.
Import ProductionBLS.

Variable bls_Verify : bytes -> bytes -> bytes -> result bool.

Let verify := verify_signature bls_Verify.

Lemma batch_verify_eq (signatures : list BLSSignature) :
  batch_verify bls_Verify signatures
  = MkResults (Z.of_nat (length signatures))
              (Z.of_nat (length signatures) - Reference.count_failing verify signatures)
              (Reference.count_failing verify signatures)
              (Reference.failing_positions verify 0 signatures).
Proof. unfold batch_verify, enumerate. rewrite batch_loop. reflexivity. Qed.

Lemma count_failing_app (l1 l2 : list BLSSignature) :
  Reference.count_failing verify (l1 ++ l2)
  = Reference.count_failing verify l1 + Reference.count_failing verify l2.
Proof.
  unfold Reference.count_failing. rewrite filter_app, length_app. lia.
Qed.

Lemma failing_positions_shift (l : list BLSSignature) :
  forall (start k : nat),
    Reference.failing_positions verify (start + k) l
    = map (fun i => i + Z.of_nat k) (Reference.failing_positions verify start l).
Proof.
  induction l as [|sig l IH]; intros start k; [reflexivity|].
  cbn [Reference.failing_positions].
  change (S (start + k)) with (S start + k)%nat. rewrite IH.
  destruct (verify sig); [reflexivity|]. cbn [map]. f_equal. lia.
Qed.

Lemma failing_positions_app (l1 l2 : list BLSSignature) :
  forall start : nat,
    Reference.failing_positions verify start (l1 ++ l2)
    = Reference.failing_positions verify start l1
      ++ Reference.failing_positions verify (start + length l1) l2.
Proof.
  induction l1 as [|sig l1 IH]; intros start.
  - cbn. now rewrite Nat.add_0_r.
  - cbn [app Reference.failing_positions length]. rewrite IH.
    replace (S start + length l1)%nat with (start + S (length l1))%nat by lia.
    now destruct (verify sig).
Qed.

(** [batch_verify] on a concatenation is the sum of [batch_verify] on the
    parts: the counts add up, and the invalid indices of the second part
    follow those of the first, shifted by the length of the first. *)
Theorem batch_verify_app (l1 l2 : list BLSSignature) :
  let r1 := batch_verify bls_Verify l1 in
  let r2 := batch_verify bls_Verify l2 in
  batch_verify bls_Verify (l1 ++ l2)
  = MkResults (total_signatures r1 + total_signatures r2)
              (valid_signatures r1 + valid_signatures r2)
              (invalid_signatures r1 + invalid_signatures r2)
              (invalid_indices r1
               ++ map (fun i => i + total_signatures r1) (invalid_indices r2)).
Proof.
  cbv zeta. rewrite !batch_verify_eq.
  cbn [total_signatures valid_signatures invalid_signatures invalid_indices].
  rewrite count_failing_app, failing_positions_app, length_app.
  rewrite (failing_positions_shift l2 0 (length l1)).
  f_equal; lia.
Qed.

End BatchParts.

(** ** The chunks of the concurrent benchmark *)

Section Chunks.
Import ProductionBLS.

Variable bls_Verify : bytes -> bytes -> bytes -> result bool.

Let valid (l : list BLSSignature) : Z := valid_signatures (batch_verify bls_Verify l).







End Chunks.

Example total_valid_three_threads :
  Benchmark.total_valid Samples.echo_verify
    [Samples.good; Samples.bad; Samples.good; Samples.bad; Samples.bad;
     Samples.good; Samples.good] 3
  = Ok 4.
Proof. reflexivity. Qed.

(** ** [miner_script.py] *)

Section Miner.
Import Triad TriadMethods HeaderHash.

Variable ecdsa_verify : bytes -> bytes -> bytes -> result bool.

Local Opaque sha256_hash merkle_root int_renders.

(** Finalizing a header before hashing it changes nothing: the hash
    recomputes the Merkle root itself. *)
Lemma finalize_then_hash (tr : Triad.t) :
  (calculate_merkle_root ;;; get_header_hash) tr = get_header_hash tr.
Proof.
  unfold bind at 1. rewrite calculate_merkle_root_eq.
  destruct (forallb tx_renders (transactions tr)) eqn:Htxs.
  - apply get_header_hash_refresh.
  - rewrite get_header_hash_raises; [reflexivity|].
    unfold renders, frame_renders. rewrite Htxs. now rewrite !andb_false_r.
Qed.

Lemma create_puzzle_refresh (p : PoF.t) (tr : Triad.t) :
  PoF.create_puzzle p (refresh tr) = PoF.create_puzzle p tr.
Proof.
  rewrite !create_puzzle_eq.
  now rewrite renders_refresh, header_hash_of_refresh, refresh_idem.
Qed.

(** The steps of [main] between the construction of the new Triad and
    the puzzle, for a transaction that is valid. *)
Lemma prepare_puzzle (p : PoF.t) (tx : Transaction.t) (tr : Triad.t) :
  Transaction.is_valid ecdsa_verify tx = Ok true ->
  (add_transaction ecdsa_verify tx ;;; calculate_merkle_root ;;;
   get_header_hash ;;; PoF.create_puzzle p) tr
  = PoF.create_puzzle p (set_transactions (transactions tr ++ [tx]) tr).
Proof.
  intros Hvalid. unfold bind at 1. rewrite add_transaction_eq, Hvalid.
  set (tr' := set_transactions _ tr).
  unfold bind at 1. rewrite calculate_merkle_root_eq.
  destruct (forallb tx_renders (transactions tr')) eqn:Htxs.
  - unfold bind at 1. rewrite get_header_hash_eq, renders_refresh.
    destruct (renders tr') eqn:Hr.
    + now rewrite refresh_idem, create_puzzle_refresh.
    + rewrite refresh_idem, create_puzzle_eq, Hr. reflexivity.
  - rewrite create_puzzle_eq.
    unfold renders, frame_renders. rewrite Htxs. now rewrite !andb_false_r.
Qed.

Lemma renders_init (parent_hash : bytes) (miner_address : str)
    (height difficulty now : Z) :
  int_renders height = true -> int_renders difficulty = true ->
  int_renders now = true ->
  renders (Triad.init parent_hash miner_address height difficulty now) = true.
Proof.
  intros Hh Hd Hn. unfold renders, frame_renders, Triad.init.
  cbn [nonce Triad.height timestamp Triad.difficulty transactions forallb].
  now rewrite int_renders_0, Hh, Hd, Hn.
Qed.

(** On a header that renders, with a difficulty that is not negative, a
    search of fewer than [10 ^ 4300] turns raises nothing. *)
Lemma solve_puzzle_never_raises (fuel : nat) (out : bytes) (tr tr2 : Triad.t)
    (e : exn) :
  0 <= difficulty tr ->
  frame_renders tr = true ->
  Z.of_nat fuel <= int_str_bound ->
  PoF.solve_puzzle fuel out tr <> Some (Raise e, tr2).
Proof.
  intros Hd Hf Hfuel H. unfold PoF.solve_puzzle, PoF.pow_target, str_of_int in H.
  assert (Hh : int_renders (height tr) = true).
  { unfold frame_renders in Hf. now destruct (int_renders (height tr)). }
  rewrite Hh in H.
  destruct (Z.ltb_spec (difficulty tr) 0); [lia|].
  apply search_within_bound in H as [n Hn]; [discriminate|assumption|lia|lia].
Qed.

Lemma main_outcome (miner_address : str) (now_parent now_new now_tx : Z)
    (fuel : nat) (r : result bool) :
  int_renders now_parent = true ->
  int_renders now_new = true ->
  int_renders now_tx = true ->
  Z.of_nat fuel <= int_str_bound ->
  MinerScript.main ecdsa_verify miner_address now_parent now_new now_tx fuel = Some r ->
  r = Ok true.
Proof.
  intros Hparent Hnew Htx Hfuel.
  assert (H10 : int_renders 10 = true) by (vm_compute; reflexivity).
  assert (H1 : int_renders 1 = true) by (vm_compute; reflexivity).
  assert (H15 : int_renders 15 = true) by (vm_compute; reflexivity).
  assert (H50 : int_renders 50 = true) by (vm_compute; reflexivity).
  unfold MinerScript.main.
  rewrite finalize_then_hash, get_header_hash_eq.
  rewrite (renders_init _ _ 0 10 now_parent int_renders_0 H10 Hparent).
  set (parent_hash := header_hash_of _).
  set (new_triad := Triad.init parent_hash miner_address 1 15 now_new).
  set (tx := Transaction.Build _ _ _ _ _ _ _ _).
  assert (Hvalid : Transaction.is_valid ecdsa_verify tx = Ok true).
  { apply is_valid_true_iff. left. reflexivity. }
  rewrite (prepare_puzzle _ tx new_triad Hvalid).
  set (tr0 := set_transactions _ new_triad).
  assert (Hnonce : nonce tr0 = 0) by reflexivity.
  assert (Hdiff : difficulty tr0 = 15) by reflexivity.
  assert (Hr : renders tr0 = true).
  { unfold renders, frame_renders, tx_renders.
    cbn [tr0 new_triad tx nonce height timestamp difficulty transactions
         set_transactions Triad.init app forallb Transaction.amount
         Transaction.fee Transaction.nonce Transaction.timestamp].
    now rewrite int_renders_0, H1, H15, H50, Hnew, Htx. }
  destruct (PoF.create_puzzle (PoF.Build MinerScript.VDF_DIFFICULTY) tr0)
    as [[[out prf]|e] tr1] eqn:Hcreate.
  2:{ rewrite create_puzzle_eq, Hr in Hcreate. discriminate Hcreate. }
  assert (Htr1 : tr1 = refresh tr0).
  { rewrite create_puzzle_eq in Hcreate.
    apply (f_equal snd) in Hcreate. now symmetry. }
  destruct (PoF.solve_puzzle fuel out tr1) as [[[n|e] tr2]|] eqn:Hsolve.
  - pose proof (solve_then_verify _ tr0 tr1 tr2 fuel out prf n Hnonce Hcreate Hsolve)
      as Hverify.
    cbn [PoF.vdf_difficulty] in Hverify. rewrite Hverify.
    intros [= <-]. reflexivity.
  - exfalso. apply (solve_puzzle_never_raises fuel out tr1 tr2 e);
      [| |exact Hfuel|exact Hsolve].
    + rewrite Htr1, difficulty_refresh, Hdiff. lia.
    + rewrite Htr1, frame_renders_refresh. now apply renders_frame.
  - discriminate.
Qed.

(** The script never reaches its FAILURE branch and raises nothing:
    whatever the miner's address, with clock values of at most 4300
    digits and a search of at most [10 ^ 4300] turns, either the nonce
    search is still running when the fuel is spent, or [is_valid] is
    [True]. *)
Theorem main_never_fails (miner_address : str) (now_parent now_new now_tx : Z)
    (fuel : nat) :
  int_renders now_parent = true ->
  int_renders now_new = true ->
  int_renders now_tx = true ->
  Z.of_nat fuel <= int_str_bound ->
  MinerScript.main ecdsa_verify miner_address now_parent now_new now_tx fuel = None
  \/ MinerScript.main ecdsa_verify miner_address now_parent now_new now_tx fuel
     = Some (Ok true).
Proof.
  intros Hparent Hnew Htx Hfuel.
  destruct (MinerScript.main ecdsa_verify miner_address now_parent now_new now_tx fuel)
    as [r|] eqn:E; [right|now left].
  now rewrite (main_outcome _ _ _ _ _ _ Hparent Hnew Htx Hfuel E).
Qed.

End Miner.

Lemma main_never_fails_witness :
  MinerScript.main Samples.reject_all (str_lit "WACminer")
                   1700000000 1700000001 1700000002 3 = None
  \/ MinerScript.main Samples.reject_all (str_lit "WACminer")
                      1700000000 1700000001 1700000002 3 = Some (Ok true).
Proof.
  apply (main_never_fails Samples.reject_all (str_lit "WACminer")
           1700000000 1700000001 1700000002 3).
  - vm_compute. reflexivity.
  - vm_compute. reflexivity.
  - vm_compute. reflexivity.
  - vm_compute. discriminate.
Defined.

